(** * The hook manager of Mesos (src/hook/manager.cpp)

    A shallow embedding of [HookManager]: the registry of loaded hook
    modules ([availableHooks], a [LinkedHashMap<string, Hook*>]), its
    control surface ([initialize], [unload], [hooksAvailable]) and the
    dispatch functions that run every loaded hook for one lifecycle event.

    Hook modules are foreign code: a hook method is a function of its
    arguments and of the state of the world, returning its result and the
    new world.  Every dispatch function runs in a state monad whose state
    carries the world and the chronological list of observable events
    (hook invocations with the arguments they received, and the warnings
    written to the log). *)

From Stdlib Require Import Ascii String List Bool.
From stdpp Require Import base tactics option list strings gmap fin_maps.

Set Default Proof Using "Type".
Open Scope string_scope.
Open Scope list_scope.

(** ** stout: [Nothing], [Option], [Try], [Result] *)

Inductive Nothing : Type := nothing.

(** [Try<T>]: a value or an error message. *)
Inductive Try (T : Type) : Type :=
| TrySome (t : T)
| TryError (message : string).
Arguments TrySome {T} t.
Arguments TryError {T} message.

(** [Result<T>]: a value, no value, or an error message. *)
Inductive Result (T : Type) : Type :=
| ResultSome (t : T)
| ResultNone
| ResultError (message : string).
Arguments ResultSome {T} t.
Arguments ResultNone {T}.
Arguments ResultError {T} message.

(** ** stout: [strings::split] *)

Fixpoint is_delim (c : ascii) (delims : string) : bool :=
  match delims with
  | EmptyString => false
  | String d delims' => if Ascii.eqb c d then true else is_delim c delims'
  end.

(** Modelled from the spec: [strings::split] of stout/strings.hpp is not
    part of the sources at hand.  The registry control surface takes a
    comma separated list of names, [initialize(commaSeparatedNames)]: the
    input is cut at every delimiter character and every piece between two
    cuts is a token, the empty ones included, so that a string without a
    delimiter is its own single token. *)
Fixpoint split (s delims : string) : list string :=
  match s with
  | EmptyString => [EmptyString]
  | String c s' =>
      if is_delim c delims then EmptyString :: split s' delims
      else match split s' delims with
           | token :: tokens => String c token :: tokens
           | [] => [String c EmptyString]
           end
  end.

(** ** stout: [LinkedHashMap] *)

Module LinkedHashMap.

(** Modelled from the spec: stout/linkedhashmap.hpp is not part of the
    sources at hand.  The registry is an ordered mapping from names to
    loaded instances whose keys are unique and whose iteration order is
    the insertion order; a name removed and loaded again goes to the end
    of the order.  The entries are kept in insertion order. *)
Definition t (V : Type) : Type := list (string * V).

Section Operations.
Context {V : Type}.

(** [keys()]: the keys in insertion order. *)
Definition keys (m : t V) : list string := map fst m.

(** [empty()] *)
Definition empty (m : t V) : bool :=
  match m with [] => true | _ :: _ => false end.

(** [contains(key)] *)
Fixpoint contains (m : t V) (key : string) : bool :=
  match m with
  | [] => false
  | (k, _) :: m' => if String.eqb k key then true else contains m' key
  end.

(** [get(key)]: the value stored under [key], if any. *)
Fixpoint get (m : t V) (key : string) : option V :=
  match m with
  | [] => None
  | (k, v) :: m' => if String.eqb k key then Some v else get m' key
  end.

(** [m[key] = value]: the value of a key already present is replaced
    where it stands, a new key goes to the end of the order. *)
Fixpoint put (m : t V) (key : string) (value : V) : t V :=
  match m with
  | [] => [(key, value)]
  | (k, v) :: m' =>
      if String.eqb k key then (k, value) :: m'
      else (k, v) :: put m' key value
  end.

(** [erase(key)] *)
Fixpoint erase (m : t V) (key : string) : t V :=
  match m with
  | [] => []
  | (k, v) :: m' =>
      if String.eqb k key then erase m' key else (k, v) :: erase m' key
  end.

End Operations.

End LinkedHashMap.

(** ** The messages of mesos.proto

    The protobuf messages and C++ classes the hook interface mentions
    are declared outside of the hook manager.  The manager reads and
    writes a few of their fields only; what it never looks at is kept
    abstract. *)
Class Messages : Type := {
  (** whatever hook modules can observe and change *)
  World : Type;
  FrameworkInfo : Type;
  FrameworkID : Type;
  ContainerInfo : Type;
  ContainerID : Type;
  ContainerStatus : Type;
  (** the fields of [TaskInfo] other than [labels] *)
  TaskInfo_rest : Type;
  (** the fields of [ExecutorInfo] other than [command] *)
  ExecutorInfo_rest : Type;
  (** the fields of [CommandInfo] other than [environment] *)
  CommandInfo_rest : Type;
  (** the fields of [TaskStatus] other than [labels] and
      [container_status] *)
  TaskStatus_rest : Type;
  (** the fields of [SlaveInfo] other than [resources] and [attributes] *)
  SlaveInfo_rest : Type;
  Resource : Type;
  Attribute : Type;
  (** the classes [Resources] and [Attributes], and their implicit
      conversions from and to the repeated fields of [SlaveInfo] *)
  Resources : Type;
  Resources_of_repeated : list Resource -> Resources;
  Resources_to_repeated : Resources -> list Resource;
  Attributes : Type;
  Attributes_of_repeated : list Attribute -> Attributes;
  Attributes_to_repeated : Attributes -> list Attribute
}.

(** [message Label { required string key; optional string value; }] *)
Record Label : Type := { Label_key : string; Label_value : option string }.

(** [message Labels { repeated Label labels; }] *)
Definition Labels : Type := list Label.

(** [message Environment.Variable { string name; string value; }] *)
Record Environment_Variable : Type :=
  { variable_name : string; variable_value : string }.

(** [message Environment { repeated Variable variables; }] *)
Record Environment : Type := { variables : list Environment_Variable }.

Section Protobuf.
Context `{Messages}.

(** An optional sub-message is [None] while unset; its accessor then
    reads the default instance, and [mutable_x()->CopyFrom(v)] sets
    it to [v]. *)

Record TaskInfo : Type := {
  TaskInfo_other : TaskInfo_rest;
  TaskInfo_labels : option Labels
}.

(** [taskInfo.labels()] *)
Definition labels (taskInfo : TaskInfo) : Labels :=
  match TaskInfo_labels taskInfo with Some l => l | None => [] end.

(** [taskInfo.mutable_labels()->CopyFrom(l)] *)
Definition copy_labels (taskInfo : TaskInfo) (l : Labels) : TaskInfo :=
  {| TaskInfo_other := TaskInfo_other taskInfo; TaskInfo_labels := Some l |}.

Record CommandInfo : Type := {
  CommandInfo_other : CommandInfo_rest;
  CommandInfo_environment : option Environment
}.

(** [command.environment()] *)
Definition environment (command : CommandInfo) : Environment :=
  match CommandInfo_environment command with
  | Some e => e
  | None => {| variables := [] |}
  end.

Record ExecutorInfo : Type := {
  ExecutorInfo_other : ExecutorInfo_rest;
  command : CommandInfo
}.

(** [executorInfo.mutable_command()->mutable_environment()->CopyFrom(e)] *)
Definition copy_environment (executorInfo : ExecutorInfo) (e : Environment)
  : ExecutorInfo :=
  {| ExecutorInfo_other := ExecutorInfo_other executorInfo;
     command :=
       {| CommandInfo_other := CommandInfo_other (command executorInfo);
          CommandInfo_environment := Some e |} |}.

(** [has_labels()] and [has_container_status()] of a [TaskStatus] say
    whether the field is [Some]. *)
Record TaskStatus : Type := {
  TaskStatus_other : TaskStatus_rest;
  TaskStatus_labels : option Labels;
  TaskStatus_container_status : option ContainerStatus
}.

(** [status.mutable_labels()->CopyFrom(l)] *)
Definition copy_status_labels (status : TaskStatus) (l : Labels) : TaskStatus :=
  {| TaskStatus_other := TaskStatus_other status;
     TaskStatus_labels := Some l;
     TaskStatus_container_status := TaskStatus_container_status status |}.

(** [status.mutable_container_status()->CopyFrom(c)] *)
Definition copy_container_status (status : TaskStatus) (c : ContainerStatus)
  : TaskStatus :=
  {| TaskStatus_other := TaskStatus_other status;
     TaskStatus_labels := TaskStatus_labels status;
     TaskStatus_container_status := Some c |}.

Record SlaveInfo : Type := {
  SlaveInfo_other : SlaveInfo_rest;
  SlaveInfo_resources : list Resource;
  SlaveInfo_attributes : list Attribute
}.

(** [slaveInfo.resources()], read as [Resources] *)
Definition resources (slaveInfo : SlaveInfo) : Resources :=
  Resources_of_repeated (SlaveInfo_resources slaveInfo).

(** [slaveInfo.attributes()], read as [Attributes] *)
Definition attributes (slaveInfo : SlaveInfo) : Attributes :=
  Attributes_of_repeated (SlaveInfo_attributes slaveInfo).

(** [slaveInfo.mutable_resources()->CopyFrom(r)] *)
Definition copy_resources (slaveInfo : SlaveInfo) (r : Resources) : SlaveInfo :=
  {| SlaveInfo_other := SlaveInfo_other slaveInfo;
     SlaveInfo_resources := Resources_to_repeated r;
     SlaveInfo_attributes := SlaveInfo_attributes slaveInfo |}.

(** [slaveInfo.mutable_attributes()->CopyFrom(a)] *)
Definition copy_attributes (slaveInfo : SlaveInfo) (a : Attributes) : SlaveInfo :=
  {| SlaveInfo_other := SlaveInfo_other slaveInfo;
     SlaveInfo_resources := SlaveInfo_resources slaveInfo;
     SlaveInfo_attributes := Attributes_to_repeated a |}.

End Protobuf.

(** ** libprocess: [Future] and [collect] *)

(** What becomes of a [Future<T>]: it is set to a value, it fails with a
    message, it is discarded, or it stays pending for ever. *)
Inductive Future (T : Type) : Type :=
| Ready (t : T)
| Failed (message : string)
| Discarded
| Pending.
Arguments Ready {T} t.
Arguments Failed {T} message.
Arguments Discarded {T}.
Arguments Pending {T}.

(** Modelled from the spec: [process::collect] of libprocess is not part
    of the sources at hand.  Once all calls have completed, the results
    are handed over in the order of the calls; if any one of the calls
    fails, the entire combined operation fails and there is no partial
    result; a call that never completes stalls the combination unless
    another one fails.  A discarded call counts as a failed one.  The
    message of the combined failure is left open by the spec: the model
    reports the first failure in the order of the calls. *)
Fixpoint collect {T} (futures : list (Future T)) : Future (list T) :=
  match futures with
  | [] => Ready []
  | future :: futures' =>
      match future with
      | Failed message => Failed message
      | Discarded => Failed "future discarded"
      | Ready t =>
          match collect futures' with
          | Ready ts => Ready (t :: ts)
          | other => other
          end
      | Pending =>
          match collect futures' with
          | Ready _ => Pending
          | other => other
          end
      end
  end.

(** Modelled from the spec: [Future::then] of libprocess is not part of
    the sources at hand.  The continuation runs on the value once the
    future is set; a future that is not set is passed on as it is. *)
Definition and_then {A B} (future : Future A) (f : A -> Future B) : Future B :=
  match future with
  | Ready a => f a
  | Failed message => Failed message
  | Discarded => Discarded
  | Pending => Pending
  end.

(** ** The hook interface (mesos/hook.hpp) *)

Module Hook.
Section Interface.
Context `{Messages}.

(** A hook module: one method per lifecycle event.  A method gets its
    arguments and the world, and gives its result and the new world. *)
Record t : Type := {
  masterLaunchTaskLabelDecorator :
    TaskInfo -> FrameworkInfo -> SlaveInfo -> World -> Result Labels * World;
  masterSlaveLostHook :
    SlaveInfo -> World -> Try Nothing * World;
  slaveRunTaskLabelDecorator :
    TaskInfo -> ExecutorInfo -> FrameworkInfo -> SlaveInfo ->
    World -> Result Labels * World;
  slaveExecutorEnvironmentDecorator :
    ExecutorInfo -> World -> Result Environment * World;
  slavePreLaunchDockerEnvironmentDecorator :
    option TaskInfo -> ExecutorInfo -> string -> string -> string ->
    option (gmap string string) ->
    World -> Future (option Environment) * World;
  slavePreLaunchDockerHook :
    ContainerInfo -> CommandInfo -> option TaskInfo -> ExecutorInfo ->
    string -> string -> string -> option Resources ->
    option (gmap string string) ->
    World -> Try Nothing * World;
  slavePostFetchHook :
    ContainerID -> string -> World -> Try Nothing * World;
  slaveRemoveExecutorHook :
    FrameworkInfo -> ExecutorInfo -> World -> Try Nothing * World;
  slaveTaskStatusDecorator :
    FrameworkID -> TaskStatus -> World -> Result TaskStatus * World;
  slaveResourcesDecorator :
    SlaveInfo -> World -> Result Resources * World;
  slaveAttributesDecorator :
    SlaveInfo -> World -> Result Attributes * World
}.

(** Modelled from the spec: the class [Hook] of mesos/hook.hpp is not
    part of the sources at hand.  Each method of the interface is
    optional; a hook module that leaves one out has no opinion, or
    succeeds where there is nothing to decorate. *)
Definition base : t :=
  {| masterLaunchTaskLabelDecorator := fun _ _ _ w => (ResultNone, w);
     masterSlaveLostHook := fun _ w => (TrySome nothing, w);
     slaveRunTaskLabelDecorator := fun _ _ _ _ w => (ResultNone, w);
     slaveExecutorEnvironmentDecorator := fun _ w => (ResultNone, w);
     slavePreLaunchDockerEnvironmentDecorator :=
       fun _ _ _ _ _ _ w => (Ready None, w);
     slavePreLaunchDockerHook :=
       fun _ _ _ _ _ _ _ _ _ w => (TrySome nothing, w);
     slavePostFetchHook := fun _ _ w => (TrySome nothing, w);
     slaveRemoveExecutorHook := fun _ _ w => (TrySome nothing, w);
     slaveTaskStatusDecorator := fun _ _ w => (ResultNone, w);
     slaveResourcesDecorator := fun _ w => (ResultNone, w);
     slaveAttributesDecorator := fun _ w => (ResultNone, w) |}.

End Interface.
End Hook.

(** ** The module manager (module/manager.hpp) *)

Module ModuleManager.
Section Interface.
Context `{Messages}.

(** [ModuleManager::contains<Hook>] and [ModuleManager::create<Hook>]:
    the collaborator that turns a module name into a hook instance. *)
Record t : Type := {
  contains : string -> bool;
  create : string -> Try Hook.t
}.

End Interface.
End ModuleManager.

(** ** Observable events and the dispatch monad *)

Section Dispatch.
Context `{Messages}.

(** A hook method together with the arguments it was called with. *)
Inductive Call : Type :=
| masterLaunchTaskLabelDecorator_call
    (taskInfo : TaskInfo) (frameworkInfo : FrameworkInfo) (slaveInfo : SlaveInfo)
| masterSlaveLostHook_call (slaveInfo : SlaveInfo)
| slaveRunTaskLabelDecorator_call
    (taskInfo : TaskInfo) (executorInfo : ExecutorInfo)
    (frameworkInfo : FrameworkInfo) (slaveInfo : SlaveInfo)
| slaveExecutorEnvironmentDecorator_call (executorInfo : ExecutorInfo)
| slavePreLaunchDockerEnvironmentDecorator_call
    (taskInfo : option TaskInfo) (executorInfo : ExecutorInfo)
    (containerName sandboxDirectory mappedDirectory : string)
    (env : option (gmap string string))
| slavePreLaunchDockerHook_call
    (containerInfo : ContainerInfo) (commandInfo : CommandInfo)
    (taskInfo : option TaskInfo) (executorInfo : ExecutorInfo)
    (containerName sandboxDirectory mappedDirectory : string)
    (resources : option Resources) (env : option (gmap string string))
| slavePostFetchHook_call (containerId : ContainerID) (directory : string)
| slaveRemoveExecutorHook_call
    (frameworkInfo : FrameworkInfo) (executorInfo : ExecutorInfo)
| slaveTaskStatusDecorator_call (frameworkId : FrameworkID) (status : TaskStatus)
| slaveResourcesDecorator_call (slaveInfo : SlaveInfo)
| slaveAttributesDecorator_call (slaveInfo : SlaveInfo).

Inductive Event : Type :=
| Invoked (name : string) (call : Call)
  (** the hook module [name] was called *)
| Warned (message : string).
  (** [LOG(WARNING) << message] *)

(** The world and the events so far, the oldest first. *)
Record State : Type := { world : World; events : list Event }.

Definition M (A : Type) : Type := State -> A * State.

Definition ret {A} (a : A) : M A := fun st => (a, st).

Definition bind {A B} (m : M A) (f : A -> M B) : M B :=
  fun st => let (a, st') := m st in f a st'.

(** [LOG(WARNING) << message] *)
Definition LOG_WARNING (message : string) : M unit :=
  fun st => (tt, {| world := world st; events := events st ++ [Warned message] |}).

(** Calling a method of the hook module [name]. *)
Definition invoke {A} (name : string) (call : Call)
    (method : World -> A * World) : M A :=
  fun st =>
    let (a, w) := method (world st) in
    (a, {| world := w; events := events st ++ [Invoked name call] |}).

(** [synchronized (mutex) { ... }]: the block runs while the mutex is
    held; one thread alone runs it as it stands. *)
Definition synchronized {A} (block : M A) : M A := block.

End Dispatch.

Declare Scope dispatch_scope.
Delimit Scope dispatch_scope with dispatch.
Notation "x <- m ;; f" := (bind m (fun x => f))
  (at level 100, m at next level, right associativity) : dispatch_scope.
Notation "m ;; f" := (bind m (fun _ => f))
  (at level 100, right associativity) : dispatch_scope.
Open Scope dispatch_scope.

Section Foreach.
Context `{Messages}.

(** [foreach (x, xs) { ... }] around a body that updates the locals [S]. *)
Fixpoint foreach {X S} (xs : list X) (body : X -> S -> M S) (locals : S) : M S :=
  match xs with
  | [] => ret locals
  | x :: xs' => locals' <- body x locals ;; foreach xs' body locals'
  end.

End Foreach.

(** ** The hook manager (hook/manager.cpp) *)

Module HookManager.
Section Manager.
Context `{Messages}.

(** The type of [availableHooks]. *)
Definition registry : Type := LinkedHashMap.t Hook.t.

(** *** The registry control surface

    [availableHooks] is a global: the functions that change it take it
    and give it back next to their result. *)

(** The loop of [initialize] over the split names. *)
Fixpoint initialize_loop (modules : ModuleManager.t) (hooks : list string)
    (availableHooks : registry) : Try Nothing * registry :=
  match hooks with
  | [] => (TrySome nothing, availableHooks)
  | hook :: hooks' =>
      if LinkedHashMap.contains availableHooks hook then
        (TryError ("Hook module '" +:+ hook +:+ "' already loaded"),
         availableHooks)
      else if negb (ModuleManager.contains modules hook) then
        (TryError ("No hook module named '" +:+ hook +:+ "' available"),
         availableHooks)
      else
        match ModuleManager.create modules hook with
        | TryError message =>
            (TryError ("Failed to instantiate hook module '" +:+ hook
                       +:+ "': " +:+ message),
             availableHooks)
        | TrySome module =>
            initialize_loop modules hooks'
              (LinkedHashMap.put availableHooks hook module)
        end
  end.

Definition initialize (modules : ModuleManager.t) (hookList : string)
    (availableHooks : registry) : Try Nothing * registry :=
  let hooks := split hookList "," in
  initialize_loop modules hooks availableHooks.

Definition unload (hookName : string) (availableHooks : registry)
  : Try Nothing * registry :=
  if negb (LinkedHashMap.contains availableHooks hookName) then
    (TryError ("Error unloading hook module '" +:+ hookName
               +:+ "': module not loaded"),
     availableHooks)
  else
    (TrySome nothing, LinkedHashMap.erase availableHooks hookName).

Definition hooksAvailable (availableHooks : registry) : bool :=
  negb (LinkedHashMap.empty availableHooks).

(** *** Decorators run one after the other

    Every loop goes over [availableHooks.keys()] and looks the hook up
    under each name.  A name that comes from [keys()] is always found
    (lemma [get_keys] below); the branch for a name that is not found
    leaves the locals as they are. *)

Definition masterLaunchTaskLabelDecorator_body (availableHooks : registry)
    (frameworkInfo : FrameworkInfo) (slaveInfo : SlaveInfo)
    (name : string) (taskInfo_ : TaskInfo) : M TaskInfo :=
  match LinkedHashMap.get availableHooks name with
  | None => ret taskInfo_
  | Some hook =>
      result <- invoke name
        (masterLaunchTaskLabelDecorator_call taskInfo_ frameworkInfo slaveInfo)
        (Hook.masterLaunchTaskLabelDecorator hook
           taskInfo_ frameworkInfo slaveInfo) ;;
      match result with
      | ResultSome l => ret (copy_labels taskInfo_ l)
      | ResultError message =>
          LOG_WARNING ("Master label decorator hook failed for module '"
                       +:+ name +:+ "': " +:+ message) ;;
          ret taskInfo_
      | ResultNone => ret taskInfo_
      end
  end.

Definition masterLaunchTaskLabelDecorator (availableHooks : registry)
    (taskInfo : TaskInfo) (frameworkInfo : FrameworkInfo)
    (slaveInfo : SlaveInfo) : M Labels :=
  synchronized (
    taskInfo_ <- foreach (LinkedHashMap.keys availableHooks)
      (masterLaunchTaskLabelDecorator_body availableHooks frameworkInfo slaveInfo)
      taskInfo ;;
    ret (labels taskInfo_)).

Definition slaveRunTaskLabelDecorator_body (availableHooks : registry)
    (executorInfo : ExecutorInfo) (frameworkInfo : FrameworkInfo)
    (slaveInfo : SlaveInfo) (name : string) (taskInfo_ : TaskInfo)
  : M TaskInfo :=
  match LinkedHashMap.get availableHooks name with
  | None => ret taskInfo_
  | Some hook =>
      result <- invoke name
        (slaveRunTaskLabelDecorator_call
           taskInfo_ executorInfo frameworkInfo slaveInfo)
        (Hook.slaveRunTaskLabelDecorator hook
           taskInfo_ executorInfo frameworkInfo slaveInfo) ;;
      match result with
      | ResultSome l => ret (copy_labels taskInfo_ l)
      | ResultError message =>
          LOG_WARNING ("Agent label decorator hook failed for module '"
                       +:+ name +:+ "': " +:+ message) ;;
          ret taskInfo_
      | ResultNone => ret taskInfo_
      end
  end.

Definition slaveRunTaskLabelDecorator (availableHooks : registry)
    (taskInfo : TaskInfo) (executorInfo : ExecutorInfo)
    (frameworkInfo : FrameworkInfo) (slaveInfo : SlaveInfo) : M Labels :=
  synchronized (
    taskInfo_ <- foreach (LinkedHashMap.keys availableHooks)
      (slaveRunTaskLabelDecorator_body
         availableHooks executorInfo frameworkInfo slaveInfo)
      taskInfo ;;
    ret (labels taskInfo_)).

Definition slaveExecutorEnvironmentDecorator_body (availableHooks : registry)
    (name : string) (executorInfo : ExecutorInfo) : M ExecutorInfo :=
  match LinkedHashMap.get availableHooks name with
  | None => ret executorInfo
  | Some hook =>
      result <- invoke name
        (slaveExecutorEnvironmentDecorator_call executorInfo)
        (Hook.slaveExecutorEnvironmentDecorator hook executorInfo) ;;
      match result with
      | ResultSome e => ret (copy_environment executorInfo e)
      | ResultError message =>
          LOG_WARNING ("Agent environment decorator hook failed for module '"
                       +:+ name +:+ "': " +:+ message) ;;
          ret executorInfo
      | ResultNone => ret executorInfo
      end
  end.

Definition slaveExecutorEnvironmentDecorator (availableHooks : registry)
    (executorInfo : ExecutorInfo) : M Environment :=
  synchronized (
    executorInfo <- foreach (LinkedHashMap.keys availableHooks)
      (slaveExecutorEnvironmentDecorator_body availableHooks)
      executorInfo ;;
    ret (environment (command executorInfo))).

Definition slaveTaskStatusDecorator_body (availableHooks : registry)
    (frameworkId : FrameworkID) (name : string) (status : TaskStatus)
  : M TaskStatus :=
  match LinkedHashMap.get availableHooks name with
  | None => ret status
  | Some hook =>
      result <- invoke name
        (slaveTaskStatusDecorator_call frameworkId status)
        (Hook.slaveTaskStatusDecorator hook frameworkId status) ;;
      match result with
      | ResultSome r =>
          let status :=
            match TaskStatus_labels r with
            | Some l => copy_status_labels status l
            | None => status
            end in
          let status :=
            match TaskStatus_container_status r with
            | Some c => copy_container_status status c
            | None => status
            end in
          ret status
      | ResultError message =>
          LOG_WARNING ("Agent TaskStatus decorator hook failed for module '"
                       +:+ name +:+ "': " +:+ message) ;;
          ret status
      | ResultNone => ret status
      end
  end.

Definition slaveTaskStatusDecorator (availableHooks : registry)
    (frameworkId : FrameworkID) (status : TaskStatus) : M TaskStatus :=
  synchronized (
    status <- foreach (LinkedHashMap.keys availableHooks)
      (slaveTaskStatusDecorator_body availableHooks frameworkId)
      status ;;
    ret status).

Definition slaveResourcesDecorator_body (availableHooks : registry)
    (name : string) (slaveInfo_ : SlaveInfo) : M SlaveInfo :=
  match LinkedHashMap.get availableHooks name with
  | None => ret slaveInfo_
  | Some hook =>
      result <- invoke name
        (slaveResourcesDecorator_call slaveInfo_)
        (Hook.slaveResourcesDecorator hook slaveInfo_) ;;
      match result with
      | ResultSome r => ret (copy_resources slaveInfo_ r)
      | ResultError message =>
          LOG_WARNING ("Agent Resources decorator hook failed for module '"
                       +:+ name +:+ "': " +:+ message) ;;
          ret slaveInfo_
      | ResultNone => ret slaveInfo_
      end
  end.

Definition slaveResourcesDecorator (availableHooks : registry)
    (slaveInfo : SlaveInfo) : M Resources :=
  let slaveInfo_ := slaveInfo in
  synchronized (
    slaveInfo_ <- foreach (LinkedHashMap.keys availableHooks)
      (slaveResourcesDecorator_body availableHooks)
      slaveInfo_ ;;
    ret (resources slaveInfo_)).

Definition slaveAttributesDecorator_body (availableHooks : registry)
    (name : string) (slaveInfo_ : SlaveInfo) : M SlaveInfo :=
  match LinkedHashMap.get availableHooks name with
  | None => ret slaveInfo_
  | Some hook =>
      result <- invoke name
        (slaveAttributesDecorator_call slaveInfo_)
        (Hook.slaveAttributesDecorator hook slaveInfo_) ;;
      match result with
      | ResultSome a => ret (copy_attributes slaveInfo_ a)
      | ResultError message =>
          LOG_WARNING ("Agent Attributes decorator hook failed for module '"
                       +:+ name +:+ "': " +:+ message) ;;
          ret slaveInfo_
      | ResultNone => ret slaveInfo_
      end
  end.

Definition slaveAttributesDecorator (availableHooks : registry)
    (slaveInfo : SlaveInfo) : M Attributes :=
  let slaveInfo_ := slaveInfo in
  synchronized (
    slaveInfo_ <- foreach (LinkedHashMap.keys availableHooks)
      (slaveAttributesDecorator_body availableHooks)
      slaveInfo_ ;;
    ret (attributes slaveInfo_)).

(** *** Notifications

    These loops run outside of the critical section. *)

Definition masterSlaveLostHook_body (availableHooks : registry)
    (slaveInfo : SlaveInfo) (name : string) (_ : unit) : M unit :=
  match LinkedHashMap.get availableHooks name with
  | None => ret tt
  | Some hook =>
      result <- invoke name
        (masterSlaveLostHook_call slaveInfo)
        (Hook.masterSlaveLostHook hook slaveInfo) ;;
      match result with
      | TryError message =>
          LOG_WARNING ("Master agent-lost hook failed for module '"
                       +:+ name +:+ "': " +:+ message)
      | TrySome _ => ret tt
      end
  end.

Definition masterSlaveLostHook (availableHooks : registry)
    (slaveInfo : SlaveInfo) : M unit :=
  foreach (LinkedHashMap.keys availableHooks)
    (masterSlaveLostHook_body availableHooks slaveInfo) tt.

Definition slavePreLaunchDockerHook_body (availableHooks : registry)
    (containerInfo : ContainerInfo) (commandInfo : CommandInfo)
    (taskInfo : option TaskInfo) (executorInfo : ExecutorInfo)
    (containerName sandboxDirectory mappedDirectory : string)
    (resources : option Resources) (env : option (gmap string string))
    (name : string) (_ : unit) : M unit :=
  match LinkedHashMap.get availableHooks name with
  | None => ret tt
  | Some hook =>
      result <- invoke name
        (slavePreLaunchDockerHook_call containerInfo commandInfo taskInfo
           executorInfo containerName sandboxDirectory mappedDirectory
           resources env)
        (Hook.slavePreLaunchDockerHook hook containerInfo commandInfo taskInfo
           executorInfo containerName sandboxDirectory mappedDirectory
           resources env) ;;
      match result with
      | TryError message =>
          LOG_WARNING ("Agent pre launch docker hook failed for module '"
                       +:+ name +:+ "': " +:+ message)
      | TrySome _ => ret tt
      end
  end.

Definition slavePreLaunchDockerHook (availableHooks : registry)
    (containerInfo : ContainerInfo) (commandInfo : CommandInfo)
    (taskInfo : option TaskInfo) (executorInfo : ExecutorInfo)
    (containerName sandboxDirectory mappedDirectory : string)
    (resources : option Resources) (env : option (gmap string string))
  : M unit :=
  foreach (LinkedHashMap.keys availableHooks)
    (slavePreLaunchDockerHook_body availableHooks containerInfo commandInfo
       taskInfo executorInfo containerName sandboxDirectory mappedDirectory
       resources env) tt.

Definition slavePostFetchHook_body (availableHooks : registry)
    (containerId : ContainerID) (directory : string)
    (name : string) (_ : unit) : M unit :=
  match LinkedHashMap.get availableHooks name with
  | None => ret tt
  | Some hook =>
      result <- invoke name
        (slavePostFetchHook_call containerId directory)
        (Hook.slavePostFetchHook hook containerId directory) ;;
      match result with
      | TryError message =>
          LOG_WARNING ("Agent post fetch hook failed for module '"
                       +:+ name +:+ "': " +:+ message)
      | TrySome _ => ret tt
      end
  end.

Definition slavePostFetchHook (availableHooks : registry)
    (containerId : ContainerID) (directory : string) : M unit :=
  foreach (LinkedHashMap.keys availableHooks)
    (slavePostFetchHook_body availableHooks containerId directory) tt.

Definition slaveRemoveExecutorHook_body (availableHooks : registry)
    (frameworkInfo : FrameworkInfo) (executorInfo : ExecutorInfo)
    (name : string) (_ : unit) : M unit :=
  match LinkedHashMap.get availableHooks name with
  | None => ret tt
  | Some hook =>
      result <- invoke name
        (slaveRemoveExecutorHook_call frameworkInfo executorInfo)
        (Hook.slaveRemoveExecutorHook hook frameworkInfo executorInfo) ;;
      match result with
      | TryError message =>
          LOG_WARNING ("Agent remove executor hook failed for module '"
                       +:+ name +:+ "': " +:+ message)
      | TrySome _ => ret tt
      end
  end.

Definition slaveRemoveExecutorHook (availableHooks : registry)
    (frameworkInfo : FrameworkInfo) (executorInfo : ExecutorInfo) : M unit :=
  foreach (LinkedHashMap.keys availableHooks)
    (slaveRemoveExecutorHook_body availableHooks frameworkInfo executorInfo) tt.

(** *** The decorator of the container environment

    Every hook is called at once and hands back a future; the futures
    are collected and their results combined. *)

(** The continuation given to [then]: combine all the environments. *)
Definition combine_environments (results : list (option Environment))
  : gmap string string :=
  foldl
    (fun (environment : gmap string string) (result : option Environment) =>
       match result with
       | None => environment
       | Some e =>
           foldl
             (fun (environment : gmap string string) variable =>
                <[variable_name variable := variable_value variable]> environment)
             environment (variables e)
       end)
    (∅ : gmap string string) results.

Definition slavePreLaunchDockerEnvironmentDecorator_body
    (availableHooks : registry)
    (taskInfo : option TaskInfo) (executorInfo : ExecutorInfo)
    (containerName sandboxDirectory mappedDirectory : string)
    (env : option (gmap string string))
    (name : string) (futures : list (Future (option Environment)))
  : M (list (Future (option Environment))) :=
  match LinkedHashMap.get availableHooks name with
  | None => ret futures
  | Some hook =>
      future <- invoke name
        (slavePreLaunchDockerEnvironmentDecorator_call taskInfo executorInfo
           containerName sandboxDirectory mappedDirectory env)
        (Hook.slavePreLaunchDockerEnvironmentDecorator hook taskInfo
           executorInfo containerName sandboxDirectory mappedDirectory env) ;;
      ret (futures ++ [future])
  end.

Definition slavePreLaunchDockerEnvironmentDecorator
    (availableHooks : registry)
    (taskInfo : option TaskInfo) (executorInfo : ExecutorInfo)
    (containerName sandboxDirectory mappedDirectory : string)
    (env : option (gmap string string))
  : M (Future (gmap string string)) :=
  futures <- foreach (LinkedHashMap.keys availableHooks)
    (slavePreLaunchDockerEnvironmentDecorator_body availableHooks taskInfo
       executorInfo containerName sandboxDirectory mappedDirectory env) [] ;;
  ret (and_then (collect futures)
         (fun results => Ready (combine_environments results))).

End Manager.
End HookManager.

(** ** The dispatch disciplines, in the words of the design

    The definitions of this part follow the description of the
    dispatcher (registry order, no opinion, replacement, error).  The
    theorems below compare the functions of [HookManager] with them. *)

Section Disciplines.
Context `{Messages}.

(** One decorator of the sequential kind: the payload handed from hook
    to hook, what a hook replies, the part of the payload the decorator
    governs and gives to its caller, and the function of [HookManager]
    that runs it. *)
Record Decoration : Type := {
  payload : Type;
  reply : Type;
  governed : Type;
  (** the method of the hook interface *)
  method : Hook.t -> payload -> World -> Result reply * World;
  (** the invocation as it is observed *)
  call : payload -> Call;
  (** a replacement overwrites the governed fields: the payload with
      the governed fields of the reply, written out field by field *)
  overwrite : payload -> reply -> payload;
  (** the line logged for the hook module [name] failing with [message] *)
  warning : string -> string -> string;
  (** the governed part of the payload, read off its fields *)
  read : payload -> governed;
  (** the body of the loop of the manager, for one name *)
  body : HookManager.registry -> string -> payload -> M payload;
  (** the dispatch function of the manager *)
  run : HookManager.registry -> payload -> M governed
}.

Definition master_label_decoration (frameworkInfo : FrameworkInfo)
    (slaveInfo : SlaveInfo) : Decoration :=
  {| method := fun hook taskInfo =>
       Hook.masterLaunchTaskLabelDecorator hook taskInfo frameworkInfo slaveInfo;
     call := fun taskInfo =>
       masterLaunchTaskLabelDecorator_call taskInfo frameworkInfo slaveInfo;
     overwrite := fun taskInfo l =>
       {| TaskInfo_other := TaskInfo_other taskInfo;
          TaskInfo_labels := Some l |};
     warning := fun name message =>
       "Master label decorator hook failed for module '" +:+ name
       +:+ "': " +:+ message;
     read := fun taskInfo =>
       match TaskInfo_labels taskInfo with Some l => l | None => [] end;
     body := fun availableHooks =>
       HookManager.masterLaunchTaskLabelDecorator_body
         availableHooks frameworkInfo slaveInfo;
     run := fun availableHooks taskInfo =>
       HookManager.masterLaunchTaskLabelDecorator
         availableHooks taskInfo frameworkInfo slaveInfo |}.

Definition agent_label_decoration (executorInfo : ExecutorInfo)
    (frameworkInfo : FrameworkInfo) (slaveInfo : SlaveInfo) : Decoration :=
  {| method := fun hook taskInfo =>
       Hook.slaveRunTaskLabelDecorator
         hook taskInfo executorInfo frameworkInfo slaveInfo;
     call := fun taskInfo =>
       slaveRunTaskLabelDecorator_call
         taskInfo executorInfo frameworkInfo slaveInfo;
     overwrite := fun taskInfo l =>
       {| TaskInfo_other := TaskInfo_other taskInfo;
          TaskInfo_labels := Some l |};
     warning := fun name message =>
       "Agent label decorator hook failed for module '" +:+ name
       +:+ "': " +:+ message;
     read := fun taskInfo =>
       match TaskInfo_labels taskInfo with Some l => l | None => [] end;
     body := fun availableHooks =>
       HookManager.slaveRunTaskLabelDecorator_body
         availableHooks executorInfo frameworkInfo slaveInfo;
     run := fun availableHooks taskInfo =>
       HookManager.slaveRunTaskLabelDecorator
         availableHooks taskInfo executorInfo frameworkInfo slaveInfo |}.

Definition environment_decoration : Decoration :=
  {| method := Hook.slaveExecutorEnvironmentDecorator;
     call := slaveExecutorEnvironmentDecorator_call;
     overwrite := fun executorInfo e =>
       {| ExecutorInfo_other := ExecutorInfo_other executorInfo;
          command :=
            {| CommandInfo_other := CommandInfo_other (command executorInfo);
               CommandInfo_environment := Some e |} |};
     warning := fun name message =>
       "Agent environment decorator hook failed for module '" +:+ name
       +:+ "': " +:+ message;
     read := fun executorInfo =>
       match CommandInfo_environment (command executorInfo) with
       | Some e => e
       | None => {| variables := [] |}
       end;
     body := HookManager.slaveExecutorEnvironmentDecorator_body;
     run := HookManager.slaveExecutorEnvironmentDecorator |}.

(** The status decorator governs two fields; each one is overwritten
    where the reply has it. *)
Definition overwrite_status (status reply : TaskStatus) : TaskStatus :=
  {| TaskStatus_other := TaskStatus_other status;
     TaskStatus_labels :=
       match TaskStatus_labels reply with
       | Some l => Some l
       | None => TaskStatus_labels status
       end;
     TaskStatus_container_status :=
       match TaskStatus_container_status reply with
       | Some c => Some c
       | None => TaskStatus_container_status status
       end |}.

Definition status_decoration (frameworkId : FrameworkID) : Decoration :=
  {| method := fun hook status =>
       Hook.slaveTaskStatusDecorator hook frameworkId status;
     call := slaveTaskStatusDecorator_call frameworkId;
     overwrite := overwrite_status;
     warning := fun name message =>
       "Agent TaskStatus decorator hook failed for module '" +:+ name
       +:+ "': " +:+ message;
     read := fun status => status;
     body := fun availableHooks =>
       HookManager.slaveTaskStatusDecorator_body availableHooks frameworkId;
     run := fun availableHooks status =>
       HookManager.slaveTaskStatusDecorator availableHooks frameworkId status |}.

Definition resources_decoration : Decoration :=
  {| method := Hook.slaveResourcesDecorator;
     call := slaveResourcesDecorator_call;
     overwrite := fun slaveInfo r =>
       {| SlaveInfo_other := SlaveInfo_other slaveInfo;
          SlaveInfo_resources := Resources_to_repeated r;
          SlaveInfo_attributes := SlaveInfo_attributes slaveInfo |};
     warning := fun name message =>
       "Agent Resources decorator hook failed for module '" +:+ name
       +:+ "': " +:+ message;
     read := fun slaveInfo =>
       Resources_of_repeated (SlaveInfo_resources slaveInfo);
     body := HookManager.slaveResourcesDecorator_body;
     run := HookManager.slaveResourcesDecorator |}.

Definition attributes_decoration : Decoration :=
  {| method := Hook.slaveAttributesDecorator;
     call := slaveAttributesDecorator_call;
     overwrite := fun slaveInfo a =>
       {| SlaveInfo_other := SlaveInfo_other slaveInfo;
          SlaveInfo_resources := SlaveInfo_resources slaveInfo;
          SlaveInfo_attributes := Attributes_to_repeated a |};
     warning := fun name message =>
       "Agent Attributes decorator hook failed for module '" +:+ name
       +:+ "': " +:+ message;
     read := fun slaveInfo =>
       Attributes_of_repeated (SlaveInfo_attributes slaveInfo);
     body := HookManager.slaveAttributesDecorator_body;
     run := HookManager.slaveAttributesDecorator |}.

(** The decorators of the sequential kind. *)
Inductive sequential_decorator : Decoration -> Prop :=
| master_label_sequential frameworkInfo slaveInfo :
    sequential_decorator (master_label_decoration frameworkInfo slaveInfo)
| agent_label_sequential executorInfo frameworkInfo slaveInfo :
    sequential_decorator
      (agent_label_decoration executorInfo frameworkInfo slaveInfo)
| environment_sequential : sequential_decorator environment_decoration
| status_sequential frameworkId :
    sequential_decorator (status_decoration frameworkId)
| resources_sequential : sequential_decorator resources_decoration
| attributes_sequential : sequential_decorator attributes_decoration.

(** What a reply does to the payload: no opinion and an error leave it
    as it is, a replacement overwrites the governed fields. *)
Definition interpret (d : Decoration) (current : payload d)
    (result : Result (reply d)) : payload d :=
  match result with
  | ResultNone => current
  | ResultSome r => overwrite d current r
  | ResultError _ => current
  end.

(** What a reply adds to the log: a warning for an error. *)
Definition logged (d : Decoration) (name : string)
    (result : Result (reply d)) : list Event :=
  match result with
  | ResultError message => [Warned (warning d name message)]
  | _ => []
  end.

(** One extension: it is invoked with the current payload. *)
Definition sequential_step (d : Decoration) (extension : string * Hook.t)
    (current : payload d) : M (payload d) :=
  fun st =>
    let (result, w) := method d extension.2 current (world st) in
    (interpret d current result,
     {| world := w;
        events := events st
                  ++ Invoked extension.1 (call d current)
                     :: logged d extension.1 result |}).

(** All extensions, in the order of the registry. *)
Fixpoint sequential_dispatch (d : Decoration)
    (extensions : list (string * Hook.t)) (current : payload d)
  : M (payload d) :=
  match extensions with
  | [] => ret current
  | extension :: extensions' =>
      next <- sequential_step d extension current ;;
      sequential_dispatch d extensions' next
  end.

(** The names of the hook modules invoked, the oldest first. *)
Fixpoint invoked_names (trace : list Event) : list string :=
  match trace with
  | [] => []
  | Invoked name _ :: trace' => name :: invoked_names trace'
  | Warned _ :: trace' => invoked_names trace'
  end.

(** The fan-out: every extension is called, in the order of the
    registry, with the same arguments. *)
Fixpoint fan_out (extensions : list (string * Hook.t))
    (taskInfo : option TaskInfo) (executorInfo : ExecutorInfo)
    (containerName sandboxDirectory mappedDirectory : string)
    (env : option (gmap string string)) (w : World)
  : list (Future (option Environment)) * World :=
  match extensions with
  | [] => ([], w)
  | (_, hook) :: extensions' =>
      let (future, w') :=
        Hook.slavePreLaunchDockerEnvironmentDecorator hook taskInfo
          executorInfo containerName sandboxDirectory mappedDirectory env w in
      let (futures, w'') :=
        fan_out extensions' taskInfo executorInfo containerName
          sandboxDirectory mappedDirectory env w' in
      (future :: futures, w'')
  end.

(** One variable written into the shared map. *)
Definition insert_variable (environment : gmap string string)
    (variable : Environment_Variable) : gmap string string :=
  <[variable_name variable := variable_value variable]> environment.

(** The variables of the results that are present, in the order of the
    results. *)
Definition bindings (results : list (option Environment))
  : list Environment_Variable :=
  concat (map (fun result =>
                 match result with
                 | Some e => variables e
                 | None => []
                 end) results).

(** The value of the last variable called [name], if there is one. *)
Fixpoint last_binding (name : string) (vars : list Environment_Variable)
  : option string :=
  match vars with
  | [] => None
  | variable :: vars' =>
      match last_binding name vars' with
      | Some v => Some v
      | None =>
          if String.eqb (variable_name variable) name
          then Some (variable_value variable) else None
      end
  end.

(** A replacement overwrites the governed field, and that field alone:
    what one turn of the loop of each decorator makes of the payload
    when the hook module [hook], loaded under [name], replies with a
    replacement, field by field. *)
Definition replacement_overwrites_governed_field
    (availableHooks : HookManager.registry) (name : string) (hook : Hook.t)
  : Prop :=
  (forall taskInfo frameworkInfo slaveInfo st l w,
      Hook.masterLaunchTaskLabelDecorator hook taskInfo frameworkInfo
        slaveInfo (world st) = (ResultSome l, w) ->
      let next :=
        (HookManager.masterLaunchTaskLabelDecorator_body availableHooks
           frameworkInfo slaveInfo name taskInfo st).1 in
      TaskInfo_labels next = Some l
      /\ TaskInfo_other next = TaskInfo_other taskInfo)
  /\ (forall taskInfo executorInfo frameworkInfo slaveInfo st l w,
        Hook.slaveRunTaskLabelDecorator hook taskInfo executorInfo
          frameworkInfo slaveInfo (world st) = (ResultSome l, w) ->
        let next :=
          (HookManager.slaveRunTaskLabelDecorator_body availableHooks
             executorInfo frameworkInfo slaveInfo name taskInfo st).1 in
        TaskInfo_labels next = Some l
        /\ TaskInfo_other next = TaskInfo_other taskInfo)
  /\ (forall executorInfo st e w,
        Hook.slaveExecutorEnvironmentDecorator hook executorInfo (world st)
        = (ResultSome e, w) ->
        let next :=
          (HookManager.slaveExecutorEnvironmentDecorator_body availableHooks
             name executorInfo st).1 in
        CommandInfo_environment (command next) = Some e
        /\ CommandInfo_other (command next)
           = CommandInfo_other (command executorInfo)
        /\ ExecutorInfo_other next = ExecutorInfo_other executorInfo)
  /\ (forall frameworkId status st r w,
        Hook.slaveTaskStatusDecorator hook frameworkId status (world st)
        = (ResultSome r, w) ->
        let next :=
          (HookManager.slaveTaskStatusDecorator_body availableHooks
             frameworkId name status st).1 in
        TaskStatus_labels next
        = match TaskStatus_labels r with
          | Some l => Some l
          | None => TaskStatus_labels status
          end
        /\ TaskStatus_container_status next
           = match TaskStatus_container_status r with
             | Some c => Some c
             | None => TaskStatus_container_status status
             end
        /\ TaskStatus_other next = TaskStatus_other status)
  /\ (forall slaveInfo st r w,
        Hook.slaveResourcesDecorator hook slaveInfo (world st)
        = (ResultSome r, w) ->
        let next :=
          (HookManager.slaveResourcesDecorator_body availableHooks
             name slaveInfo st).1 in
        SlaveInfo_resources next = Resources_to_repeated r
        /\ SlaveInfo_attributes next = SlaveInfo_attributes slaveInfo
        /\ SlaveInfo_other next = SlaveInfo_other slaveInfo)
  /\ (forall slaveInfo st a w,
        Hook.slaveAttributesDecorator hook slaveInfo (world st)
        = (ResultSome a, w) ->
        let next :=
          (HookManager.slaveAttributesDecorator_body availableHooks
             name slaveInfo st).1 in
        SlaveInfo_attributes next = Attributes_to_repeated a
        /\ SlaveInfo_resources next = SlaveInfo_resources slaveInfo
        /\ SlaveInfo_other next = SlaveInfo_other slaveInfo).

(** What each decorator gives to its caller: the governed field of the
    payload its loop ends with, read off the fields of that payload (an
    optional field that is not set reads as the empty message). *)
Definition governed_field_returned (availableHooks : HookManager.registry)
  : Prop :=
  (forall taskInfo frameworkInfo slaveInfo st,
      (HookManager.masterLaunchTaskLabelDecorator
         availableHooks taskInfo frameworkInfo slaveInfo st).1
      = match TaskInfo_labels
                (foreach (LinkedHashMap.keys availableHooks)
                   (HookManager.masterLaunchTaskLabelDecorator_body
                      availableHooks frameworkInfo slaveInfo)
                   taskInfo st).1 with
        | Some l => l
        | None => []
        end)
  /\ (forall taskInfo executorInfo frameworkInfo slaveInfo st,
        (HookManager.slaveRunTaskLabelDecorator
           availableHooks taskInfo executorInfo frameworkInfo slaveInfo st).1
        = match TaskInfo_labels
                  (foreach (LinkedHashMap.keys availableHooks)
                     (HookManager.slaveRunTaskLabelDecorator_body
                        availableHooks executorInfo frameworkInfo slaveInfo)
                     taskInfo st).1 with
          | Some l => l
          | None => []
          end)
  /\ (forall executorInfo st,
        (HookManager.slaveExecutorEnvironmentDecorator
           availableHooks executorInfo st).1
        = match CommandInfo_environment
                  (command
                     (foreach (LinkedHashMap.keys availableHooks)
                        (HookManager.slaveExecutorEnvironmentDecorator_body
                           availableHooks)
                        executorInfo st).1) with
          | Some e => e
          | None => {| variables := [] |}
          end)
  /\ (forall frameworkId status st,
        (HookManager.slaveTaskStatusDecorator
           availableHooks frameworkId status st).1
        = (foreach (LinkedHashMap.keys availableHooks)
             (HookManager.slaveTaskStatusDecorator_body
                availableHooks frameworkId)
             status st).1)
  /\ (forall slaveInfo st,
        (HookManager.slaveResourcesDecorator availableHooks slaveInfo st).1
        = Resources_of_repeated
            (SlaveInfo_resources
               (foreach (LinkedHashMap.keys availableHooks)
                  (HookManager.slaveResourcesDecorator_body availableHooks)
                  slaveInfo st).1))
  /\ (forall slaveInfo st,
        (HookManager.slaveAttributesDecorator availableHooks slaveInfo st).1
        = Attributes_of_repeated
            (SlaveInfo_attributes
               (foreach (LinkedHashMap.keys availableHooks)
                  (HookManager.slaveAttributesDecorator_body availableHooks)
                  slaveInfo st).1)).

(** What the caller of each decorator reads after a hook module has
    replied with the replacement: the replacement itself for the labels
    and the environment; for the status, each optional field of the
    replacement that is set, and the field of the status as it was
    otherwise; for the resources and the attributes, the replacement
    after it has gone through the repeated field of the agent. *)
Definition replacement_read_back : Prop :=
  (forall frameworkInfo slaveInfo taskInfo l,
      let d := master_label_decoration frameworkInfo slaveInfo in
      read d (overwrite d taskInfo l) = l)
  /\ (forall executorInfo frameworkInfo slaveInfo taskInfo l,
        let d := agent_label_decoration executorInfo frameworkInfo slaveInfo in
        read d (overwrite d taskInfo l) = l)
  /\ (forall executorInfo e,
        let d := environment_decoration in
        read d (overwrite d executorInfo e) = e)
  /\ (forall frameworkId status r,
        let d := status_decoration frameworkId in
        let returned := read d (overwrite d status r) in
        TaskStatus_labels returned
        = match TaskStatus_labels r with
          | Some l => Some l
          | None => TaskStatus_labels status
          end
        /\ TaskStatus_container_status returned
           = match TaskStatus_container_status r with
             | Some c => Some c
             | None => TaskStatus_container_status status
             end
        /\ TaskStatus_other returned = TaskStatus_other status)
  /\ (forall slaveInfo r,
        let d := resources_decoration in
        read d (overwrite d slaveInfo r)
        = Resources_of_repeated (Resources_to_repeated r))
  /\ (forall slaveInfo a,
        let d := attributes_decoration in
        read d (overwrite d slaveInfo a)
        = Attributes_of_repeated (Attributes_to_repeated a)).

End Disciplines.

(** ** Loading, in the words of the design *)

(** No character of [s] is a delimiter. *)
Fixpoint delimiter_free (s delims : string) : bool :=
  match s with
  | EmptyString => true
  | String c s' => negb (is_delim c delims) && delimiter_free s' delims
  end.

Section Loading.
Context `{Messages}.

(** Why the name [hook] cannot be loaded into [availableHooks], and the
    message of the error: the name is loaded already, the module
    manager has no such module, or the module cannot be instantiated. *)
Inductive load_failure (modules : ModuleManager.t)
    (availableHooks : HookManager.registry) (hook : string) : string -> Prop :=
| AlreadyLoaded :
    LinkedHashMap.contains availableHooks hook = true ->
    load_failure modules availableHooks hook
      ("Hook module '" +:+ hook +:+ "' already loaded")
| ModuleNotFound :
    LinkedHashMap.contains availableHooks hook = false ->
    ModuleManager.contains modules hook = false ->
    load_failure modules availableHooks hook
      ("No hook module named '" +:+ hook +:+ "' available")
| InstantiationFailed reason :
    LinkedHashMap.contains availableHooks hook = false ->
    ModuleManager.contains modules hook = true ->
    ModuleManager.create modules hook = TryError reason ->
    load_failure modules availableHooks hook
      ("Failed to instantiate hook module '" +:+ hook +:+ "': " +:+ reason).

(** The entry made for a name that loads: the module manager has the
    module and instantiates it. *)
Definition loads (modules : ModuleManager.t) (hook : string)
    (entry : string * Hook.t) : Prop :=
  entry.1 = hook
  /\ ModuleManager.contains modules hook = true
  /\ ModuleManager.create modules hook = TrySome entry.2.

End Loading.

(** ** Concrete hook modules, for the examples *)

(** Abstract fields are strings, the world counts the calls made to
    the hook modules below. *)
Definition example_messages : Messages :=
  {| World := nat;
     FrameworkInfo := string;
     FrameworkID := string;
     ContainerInfo := string;
     ContainerID := string;
     ContainerStatus := string;
     TaskInfo_rest := string;
     ExecutorInfo_rest := string;
     CommandInfo_rest := string;
     TaskStatus_rest := string;
     SlaveInfo_rest := string;
     Resource := string;
     Attribute := string;
     Resources := list string;
     Resources_of_repeated := fun r => r;
     Resources_to_repeated := fun r => r;
     Attributes := list string;
     Attributes_of_repeated := fun a => a;
     Attributes_to_repeated := fun a => a |}.

Module Examples.
#[local] Existing Instance example_messages.

(** A hook module that gives the same replies at every call. *)
Definition replying (for_labels : Result Labels)
    (for_status : Result TaskStatus)
    (for_container : Future (option Environment))
  : @Hook.t example_messages :=
  {| Hook.masterLaunchTaskLabelDecorator := fun _ _ _ w => (for_labels, S w);
     Hook.masterSlaveLostHook := fun _ w => (TrySome nothing, S w);
     Hook.slaveRunTaskLabelDecorator := fun _ _ _ _ w => (for_labels, S w);
     Hook.slaveExecutorEnvironmentDecorator := fun _ w => (ResultNone, S w);
     Hook.slavePreLaunchDockerEnvironmentDecorator :=
       fun _ _ _ _ _ _ w => (for_container, S w);
     Hook.slavePreLaunchDockerHook :=
       fun _ _ _ _ _ _ _ _ _ w => (TrySome nothing, S w);
     Hook.slavePostFetchHook := fun _ _ w => (TrySome nothing, S w);
     Hook.slaveRemoveExecutorHook := fun _ _ w => (TrySome nothing, S w);
     Hook.slaveTaskStatusDecorator := fun _ _ w => (for_status, S w);
     Hook.slaveResourcesDecorator := fun _ w => (ResultNone, S w);
     Hook.slaveAttributesDecorator := fun _ w => (ResultNone, S w) |}.

Definition label (k v : string) : Label :=
  {| Label_key := k; Label_value := Some v |}.

Definition variable (n v : string) : Environment_Variable :=
  {| variable_name := n; variable_value := v |}.

(** [E1] sets the label X to 1, [E2] has no opinion, [E2'] sets X to 2,
    [E3] fails. *)
Definition E1 : Hook.t :=
  replying (ResultSome [label "X" "1"]) ResultNone
    (Ready (Some {| variables := [variable "FOO" "1"] |})).

Definition E2 : Hook.t := replying ResultNone ResultNone (Ready None).

Definition E2' : Hook.t :=
  replying (ResultSome [label "X" "2"]) ResultNone
    (Ready (Some {| variables := [variable "FOO" "2"; variable "BAR" "x"] |})).

Definition E3 : Hook.t :=
  replying (ResultError "boom") (ResultError "boom") (Failed "boom").

(** [E4] replies to the status decorator with labels only, [E5] with
    a container status only. *)
Definition E4 : Hook.t :=
  replying ResultNone
    (ResultSome {| TaskStatus_other := "";
                   TaskStatus_labels := Some [label "X" "1"];
                   TaskStatus_container_status := None |})
    (Ready None).

Definition E5 : Hook.t :=
  replying ResultNone
    (ResultSome {| TaskStatus_other := "";
                   TaskStatus_labels := None;
                   TaskStatus_container_status := Some "replaced" |})
    (Ready None).

(** [E6] sets the environment of the executor, the resources and the
    attributes of the agent. *)
Definition E6 : @Hook.t example_messages :=
  {| Hook.masterLaunchTaskLabelDecorator := fun _ _ _ w => (ResultNone, S w);
     Hook.masterSlaveLostHook := fun _ w => (TrySome nothing, S w);
     Hook.slaveRunTaskLabelDecorator := fun _ _ _ _ w => (ResultNone, S w);
     Hook.slaveExecutorEnvironmentDecorator :=
       fun _ w => (ResultSome {| variables := [variable "FOO" "1"] |}, S w);
     Hook.slavePreLaunchDockerEnvironmentDecorator :=
       fun _ _ _ _ _ _ w => (Ready None, S w);
     Hook.slavePreLaunchDockerHook :=
       fun _ _ _ _ _ _ _ _ _ w => (TrySome nothing, S w);
     Hook.slavePostFetchHook := fun _ _ w => (TrySome nothing, S w);
     Hook.slaveRemoveExecutorHook := fun _ _ w => (TrySome nothing, S w);
     Hook.slaveTaskStatusDecorator := fun _ _ w => (ResultNone, S w);
     Hook.slaveResourcesDecorator := fun _ w => (ResultSome ["cpus:8"], S w);
     Hook.slaveAttributesDecorator :=
       fun _ w => (ResultSome ["rack:2"], S w) |}.

Definition task : TaskInfo :=
  {| TaskInfo_other := "task"; TaskInfo_labels := Some [label "X" "0"] |}.

Definition executor : ExecutorInfo :=
  {| ExecutorInfo_other := "executor";
     command := {| CommandInfo_other := "command";
                   CommandInfo_environment := None |} |}.

Definition agent : SlaveInfo :=
  {| SlaveInfo_other := "agent";
     SlaveInfo_resources := ["cpus:4"];
     SlaveInfo_attributes := ["rack:1"] |}.

Definition status : TaskStatus :=
  {| TaskStatus_other := "TASK_RUNNING";
     TaskStatus_labels := Some [label "X" "0"];
     TaskStatus_container_status := Some "container" |}.

Definition start : State := {| world := 0; events := [] |}.

(** The module manager knows the hook modules a, b and c; b cannot be
    instantiated. *)
Definition modules : ModuleManager.t :=
  {| ModuleManager.contains := fun name =>
       String.eqb name "a" || String.eqb name "b" || String.eqb name "c";
     ModuleManager.create := fun name =>
       if String.eqb name "a" then TrySome E1
       else if String.eqb name "c" then TrySome E2
       else TryError "no such symbol" |}.

End Examples.

(** ** Notifications, one hook module after the other *)

Section Notifications.
Context `{Messages}.

(** One notification: the method of the hook interface with the
    arguments of the event, the invocation as it is observed, the line
    logged for a hook module that fails, and the function of
    [HookManager] that runs it. *)
Record Notification : Type := {
  told : Hook.t -> World -> Try Nothing * World;
  notice : Call;
  complaint : string -> string -> string;
  tell : HookManager.registry -> M unit
}.

Definition agent_lost_notification (slaveInfo : SlaveInfo) : Notification :=
  {| told := fun hook => Hook.masterSlaveLostHook hook slaveInfo;
     notice := masterSlaveLostHook_call slaveInfo;
     complaint := fun name message =>
       "Master agent-lost hook failed for module '" +:+ name
       +:+ "': " +:+ message;
     tell := fun availableHooks =>
       HookManager.masterSlaveLostHook availableHooks slaveInfo |}.

Definition pre_launch_notification
    (containerInfo : ContainerInfo) (commandInfo : CommandInfo)
    (taskInfo : option TaskInfo) (executorInfo : ExecutorInfo)
    (containerName sandboxDirectory mappedDirectory : string)
    (resources : option Resources) (env : option (gmap string string))
  : Notification :=
  {| told := fun hook =>
       Hook.slavePreLaunchDockerHook hook containerInfo commandInfo taskInfo
         executorInfo containerName sandboxDirectory mappedDirectory
         resources env;
     notice :=
       slavePreLaunchDockerHook_call containerInfo commandInfo taskInfo
         executorInfo containerName sandboxDirectory mappedDirectory
         resources env;
     complaint := fun name message =>
       "Agent pre launch docker hook failed for module '" +:+ name
       +:+ "': " +:+ message;
     tell := fun availableHooks =>
       HookManager.slavePreLaunchDockerHook availableHooks containerInfo
         commandInfo taskInfo executorInfo containerName sandboxDirectory
         mappedDirectory resources env |}.

Definition post_fetch_notification (containerId : ContainerID)
    (directory : string) : Notification :=
  {| told := fun hook => Hook.slavePostFetchHook hook containerId directory;
     notice := slavePostFetchHook_call containerId directory;
     complaint := fun name message =>
       "Agent post fetch hook failed for module '" +:+ name
       +:+ "': " +:+ message;
     tell := fun availableHooks =>
       HookManager.slavePostFetchHook availableHooks containerId directory |}.

Definition remove_executor_notification (frameworkInfo : FrameworkInfo)
    (executorInfo : ExecutorInfo) : Notification :=
  {| told := fun hook =>
       Hook.slaveRemoveExecutorHook hook frameworkInfo executorInfo;
     notice := slaveRemoveExecutorHook_call frameworkInfo executorInfo;
     complaint := fun name message =>
       "Agent remove executor hook failed for module '" +:+ name
       +:+ "': " +:+ message;
     tell := fun availableHooks =>
       HookManager.slaveRemoveExecutorHook
         availableHooks frameworkInfo executorInfo |}.

(** The four notifications of the manager. *)
Inductive notification : Notification -> Prop :=
| agent_lost_notified slaveInfo :
    notification (agent_lost_notification slaveInfo)
| pre_launch_notified containerInfo commandInfo taskInfo executorInfo
    containerName sandboxDirectory mappedDirectory resources env :
    notification
      (pre_launch_notification containerInfo commandInfo taskInfo
         executorInfo containerName sandboxDirectory mappedDirectory
         resources env)
| post_fetch_notified containerId directory :
    notification (post_fetch_notification containerId directory)
| remove_executor_notified frameworkInfo executorInfo :
    notification (remove_executor_notification frameworkInfo executorInfo).

(** What the result of a hook module adds to the log. *)
Definition complaints (n : Notification) (name : string)
    (result : Try Nothing) : list Event :=
  match result with
  | TryError message => [Warned (complaint n name message)]
  | TrySome _ => []
  end.

(** One hook module is told. *)
Definition tell_step (n : Notification) (extension : string * Hook.t)
  : M unit :=
  fun st =>
    let (result, w) := told n extension.2 (world st) in
    (tt,
     {| world := w;
        events := events st
                  ++ Invoked extension.1 (notice n)
                     :: complaints n extension.1 result |}).

(** All hook modules are told, one after the other. *)
Fixpoint tell_all (n : Notification) (extensions : list (string * Hook.t))
  : M unit :=
  match extensions with
  | [] => ret tt
  | extension :: extensions' =>
      tell_step n extension ;; tell_all n extensions'
  end.

(** Between two states the trace has grown, and every hook module
    invoked in between was called with a call that satisfies [P]. *)
Definition shown_to_hooks (P : Call -> Prop) (before after : State) : Prop :=
  exists added,
    events after = events before ++ added
    /\ Forall (fun event =>
                 match event with
                 | Invoked _ call => P call
                 | Warned _ => True
                 end) added.

End Notifications.

(** * Properties *)

(** ** The ordered map *)

Section LinkedHashMapFacts.
Context {V : Type}.
Implicit Types (m : LinkedHashMap.t V) (k : string) (v : V).

Lemma contains_keys m k :
  LinkedHashMap.contains m k = true <-> k ∈ LinkedHashMap.keys m.
Proof.
  induction m as [|[k' v'] m IH]; simpl.
  - split; [discriminate | intros Hin; inversion Hin].
  - destruct (String.eqb_spec k' k) as [->|Hne].
    + split; [intros _; left | reflexivity].
    + rewrite IH. split; [by right |].
      intros Hin. inversion Hin; subst; [congruence | assumption].
Qed.

Lemma contains_false_keys m k :
  LinkedHashMap.contains m k = false <-> k ∉ LinkedHashMap.keys m.
Proof.
  rewrite <- contains_keys. destruct (LinkedHashMap.contains m k); split; congruence.
Qed.

Lemma contains_get m k :
  LinkedHashMap.contains m k = true <-> is_Some (LinkedHashMap.get m k).
Proof.
  induction m as [|[k' v'] m IH]; simpl.
  - split; [discriminate | intros [? ?]; discriminate].
  - destruct (String.eqb k' k); [split; eauto | exact IH].
Qed.

(** A name that comes from [keys()] is found. *)
Lemma get_keys m k :
  k ∈ LinkedHashMap.keys m -> is_Some (LinkedHashMap.get m k).
Proof. rewrite <- contains_keys. apply contains_get. Qed.

Lemma get_entry m k v :
  NoDup (LinkedHashMap.keys m) -> (k, v) ∈ m -> LinkedHashMap.get m k = Some v.
Proof.
  induction m as [|[k' v'] m IH]; simpl; intros Hnd Hin.
  - inversion Hin.
  - apply NoDup_cons in Hnd as [Hk' Hnd].
    destruct (String.eqb_spec k' k) as [->|Hne].
    + inversion Hin; subst; [reflexivity |].
      exfalso. apply Hk'. apply list_elem_of_fmap. by exists (k, v).
    + inversion Hin; subst; [congruence | by apply IH].
Qed.

Lemma put_absent m k v :
  LinkedHashMap.contains m k = false -> LinkedHashMap.put m k v = m ++ [(k, v)].
Proof.
  induction m as [|[k' v'] m IH]; simpl; [reflexivity |].
  destruct (String.eqb k' k); [discriminate |].
  intros Hc. by rewrite IH.
Qed.

Lemma contains_app m1 m2 k :
  LinkedHashMap.contains (m1 ++ m2) k
  = LinkedHashMap.contains m1 k || LinkedHashMap.contains m2 k.
Proof.
  induction m1 as [|[k' v'] m1 IH]; simpl; [reflexivity |].
  destruct (String.eqb k' k); [reflexivity | exact IH].
Qed.

Lemma keys_erase m k :
  LinkedHashMap.keys (LinkedHashMap.erase m k)
  = filter (fun k' => k' <> k) (LinkedHashMap.keys m).
Proof.
  induction m as [|[k' v'] m IH]; simpl; [reflexivity |].
  destruct (String.eqb_spec k' k) as [->|Hne].
  - rewrite filter_cons_False; [exact IH | by intros ?].
  - rewrite filter_cons_True; [| assumption]. simpl. by rewrite IH.
Qed.

End LinkedHashMapFacts.

(** ** Loops over the keys of the registry *)

Section DispatchFacts.
Context `{Messages}.
Implicit Types (availableHooks : HookManager.registry) (st : State).

Lemma foreach_app {X S} (xs ys : list X) (body : X -> S -> M S) (s : S) st :
  foreach (xs ++ ys) body s st
  = let (s', st') := foreach xs body s st in foreach ys body s' st'.
Proof.
  revert s st. induction xs as [|x xs IH]; intros s st; simpl; [reflexivity |].
  unfold bind. destruct (body x s st) as [s1 st1]. apply IH.
Qed.

(** A loop over [keys()] that looks every name up is a loop over the
    entries. *)
Lemma foreach_keys {S} availableHooks
    (body : string -> S -> M S) (step : string * Hook.t -> S -> M S) :
  NoDup (LinkedHashMap.keys availableHooks) ->
  (forall name hook s st,
      LinkedHashMap.get availableHooks name = Some hook ->
      body name s st = step (name, hook) s st) ->
  forall s st,
    foreach (LinkedHashMap.keys availableHooks) body s st
    = foreach availableHooks step s st.
Proof.
  intros Hnd Hbody.
  assert (Hsuffix : forall entries : list (string * Hook.t),
             (forall name hook, (name, hook) ∈ entries ->
                                LinkedHashMap.get availableHooks name = Some hook) ->
             forall s st,
               foreach (LinkedHashMap.keys entries) body s st
               = foreach entries step s st).
  { induction entries as [|[name hook] entries IH]; intros Hget s st; simpl;
      [reflexivity |].
    unfold bind. rewrite (Hbody name hook s st); [| apply Hget; left].
    destruct (step (name, hook) s st) as [s1 st1].
    apply IH. intros name' hook' Hin. apply Hget. by right. }
  apply Hsuffix. intros name hook Hin. by apply get_entry.
Qed.

Lemma sequential_dispatch_foreach d extensions (current : payload d) st :
  sequential_dispatch d extensions current st
  = foreach extensions (sequential_step d) current st.
Proof.
  revert current st. induction extensions as [|e extensions IH];
    intros current st; simpl; [reflexivity |].
  unfold bind. destruct (sequential_step d e current st). apply IH.
Qed.

Lemma sequential_dispatch_app d pre post (current : payload d) st :
  sequential_dispatch d (pre ++ post) current st
  = let (next, st') := sequential_dispatch d pre current st in
    sequential_dispatch d post next st'.
Proof.
  rewrite !sequential_dispatch_foreach, foreach_app.
  destruct (foreach pre _ current st) as [next st'].
  by rewrite sequential_dispatch_foreach.
Qed.

Lemma invoked_names_app (t1 t2 : list Event) :
  invoked_names (t1 ++ t2) = invoked_names t1 ++ invoked_names t2.
Proof.
  induction t1 as [|[name c|message] t1 IH]; simpl; [reflexivity | |];
    by rewrite IH.
Qed.

Lemma invoked_names_logged d name result :
  invoked_names (logged d name result) = [].
Proof. by destruct result. Qed.

(** The hooks are invoked in the order of the entries. *)
Lemma sequential_dispatch_invoked d extensions (current : payload d) st :
  invoked_names (events (sequential_dispatch d extensions current st).2)
  = invoked_names (events st) ++ LinkedHashMap.keys extensions.
Proof.
  revert current st. induction extensions as [|[name hook] extensions IH];
    intros current st; simpl.
  - by rewrite app_nil_r.
  - unfold bind, sequential_step. simpl.
    destruct (method d hook current (world st)) as [result w].
    rewrite IH. simpl.
    rewrite invoked_names_app. simpl. rewrite invoked_names_logged.
    by rewrite <- app_assoc.
Qed.

(** A loop whose body is one step of the dispatch is the dispatch. *)
Lemma loop_is_dispatch d availableHooks
    (body : string -> payload d -> M (payload d)) :
  NoDup (LinkedHashMap.keys availableHooks) ->
  (forall name hook current st,
      LinkedHashMap.get availableHooks name = Some hook ->
      body name current st = sequential_step d (name, hook) current st) ->
  forall current st,
    foreach (LinkedHashMap.keys availableHooks) body current st
    = sequential_dispatch d availableHooks current st.
Proof.
  intros Hnd Hbody current st.
  rewrite sequential_dispatch_foreach. by apply foreach_keys.
Qed.

(** Every body of a sequential decorator is one step of the dispatch:
    after the lookup, the result of the hook is told apart. *)
Lemma body_is_step d availableHooks name hook (current : payload d) st :
  sequential_decorator d ->
  LinkedHashMap.get availableHooks name = Some hook ->
  body d availableHooks name current st
  = sequential_step d (name, hook) current st.
Proof.
  intros Hd Hget.
  destruct Hd; cbn [body master_label_decoration agent_label_decoration
       environment_decoration status_decoration resources_decoration
       attributes_decoration];
    unfold HookManager.masterLaunchTaskLabelDecorator_body,
      HookManager.slaveRunTaskLabelDecorator_body,
      HookManager.slaveExecutorEnvironmentDecorator_body,
      HookManager.slaveTaskStatusDecorator_body,
      HookManager.slaveResourcesDecorator_body,
      HookManager.slaveAttributesDecorator_body;
    rewrite Hget;
    unfold sequential_step, invoke, bind, LOG_WARNING, ret; cbn;
    match goal with
    | |- _ = (let (_, _) := ?call in _) =>
        destruct call as [[r| |message] w]; cbn
    end;
    rewrite <- ?app_assoc; try reflexivity.
  unfold overwrite_status, copy_status_labels, copy_container_status.
  destruct r as [other [l|] [c|]], current; reflexivity.
Qed.

(** Every sequential decorator is the loop of its body over [keys()],
    and gives the governed part of the last payload to its caller. *)
Lemma run_is_loop d availableHooks (initial : payload d) st :
  sequential_decorator d ->
  run d availableHooks initial st
  = let (final, st') :=
      foreach (LinkedHashMap.keys availableHooks) (body d availableHooks)
        initial st in
    (read d final, st').
Proof. intros Hd. by destruct Hd. Qed.

(** The value a sequential decorator returns is read off the payload
    the dispatch ends with. *)
Lemma run_is_dispatch d availableHooks :
  sequential_decorator d ->
  NoDup (LinkedHashMap.keys availableHooks) ->
  forall (initial : payload d) st,
    run d availableHooks initial st
    = let (final, st') := sequential_dispatch d availableHooks initial st in
      (read d final, st').
Proof.
  intros Hd Hnd initial st.
  rewrite run_is_loop by assumption.
  rewrite (loop_is_dispatch d); [reflexivity | assumption |].
  intros name hook current st1 Hget. by apply body_is_step.
Qed.

(** One turn of each loop with a replacement, field by field. *)
Lemma replacement_field_by_field availableHooks name hook :
  LinkedHashMap.get availableHooks name = Some hook ->
  replacement_overwrites_governed_field availableHooks name hook.
Proof.
  intros Hget.
  repeat split; intros;
    unfold HookManager.masterLaunchTaskLabelDecorator_body,
      HookManager.slaveRunTaskLabelDecorator_body,
      HookManager.slaveExecutorEnvironmentDecorator_body,
      HookManager.slaveTaskStatusDecorator_body,
      HookManager.slaveResourcesDecorator_body,
      HookManager.slaveAttributesDecorator_body in *;
    try subst next; rewrite Hget; unfold bind, invoke, ret;
    match goal with Hcall : _ = (ResultSome _, _) |- _ => rewrite Hcall end;
    simpl; try reflexivity;
    match goal with r : TaskStatus |- _ =>
      destruct r as [other [l|] [c|]]; reflexivity
    end.
Qed.

(** What each decorator returns, read off the fields. *)
Lemma replacement_is_read_back : replacement_read_back.
Proof.
  repeat split; intros; simpl; try reflexivity;
    unfold overwrite_status; simpl;
    by repeat match goal with
              | |- context [match ?o with Some _ => _ | None => _ end] =>
                  destruct o
              end.
Qed.

Lemma returned_field_by_field availableHooks :
  governed_field_returned availableHooks.
Proof.
  repeat split; intros;
    unfold HookManager.masterLaunchTaskLabelDecorator,
      HookManager.slaveRunTaskLabelDecorator,
      HookManager.slaveExecutorEnvironmentDecorator,
      HookManager.slaveTaskStatusDecorator,
      HookManager.slaveResourcesDecorator,
      HookManager.slaveAttributesDecorator, synchronized, bind, ret;
    by destruct (foreach _ _ _ _).
Qed.

End DispatchFacts.

(** ** Decorators run one after the other *)

Section SequentialDecorators.
Context `{Messages}.
Implicit Types (availableHooks : HookManager.registry) (st : State).

(** C1.  Every sequential decorator (the two label decorators, the
    executor environment, the task status, the resources and the
    attributes), over any initial payload and any registry: the value
    given to the caller is the governed part of the payload the fold of
    the steps ends with; the hook modules are invoked in the insertion
    order of the registry; the hook at any place of the registry is
    invoked with the current payload, the one the hooks before it have
    made, and the hooks after it go on from its reply: no opinion leaves
    the payload as it is, a replacement overwrites the governed fields.
    In particular, with two hooks [E1] then [E2], where [E1] replaces by
    [x]: if [E2] has no opinion the caller gets the payload with [x],
    and if [E2] replaces by [y] the caller gets the payload with [y]
    over [x] (the hook registered last wins).  Field by field: in one
    turn of the loop of each decorator a replacement sets the governed
    field of the payload to the reply ([labels] of the task, the
    [environment] of the command of the executor, [labels] and
    [container_status] of the status where the reply has them,
    [resources] or [attributes] of the agent) and leaves the other
    fields alone; and what the caller gets is that field of the payload
    the loop ends with. *)
Theorem sequential_decorators_fold_in_registry_order
    d availableHooks (initial : payload d) st :
  sequential_decorator d ->
  NoDup (LinkedHashMap.keys availableHooks) ->
  let (final, st') := sequential_dispatch d availableHooks initial st in
  run d availableHooks initial st = (read d final, st')
  /\ invoked_names (events st')
     = invoked_names (events st) ++ LinkedHashMap.keys availableHooks
  /\ (forall pre name hook post,
        availableHooks = pre ++ (name, hook) :: post ->
        let (current, st1) := sequential_dispatch d pre initial st in
        let (result, w) := method d hook current (world st1) in
        exists next,
          body d availableHooks name current st1
          = (next, {| world := w;
                      events := events st1
                                ++ Invoked name (call d current)
                                   :: logged d name result |})
          /\ (result = ResultNone -> next = current)
          /\ (forall r, result = ResultSome r -> next = overwrite d current r)
          /\ (final, st')
             = sequential_dispatch d post next
                 {| world := w;
                    events := events st1
                              ++ Invoked name (call d current)
                                 :: logged d name result |})
  /\ (forall n1 E1 n2 E2 x w1,
        availableHooks = [(n1, E1); (n2, E2)] ->
        method d E1 initial (world st) = (ResultSome x, w1) ->
        ((method d E2 (overwrite d initial x) w1).1 = ResultNone ->
         (run d availableHooks initial st).1 = read d (overwrite d initial x))
        /\ (forall y,
              (method d E2 (overwrite d initial x) w1).1 = ResultSome y ->
              (run d availableHooks initial st).1
              = read d (overwrite d (overwrite d initial x) y)))
  /\ (forall name hook,
        LinkedHashMap.get availableHooks name = Some hook ->
        replacement_overwrites_governed_field availableHooks name hook)
  /\ governed_field_returned availableHooks.
Proof.
  intros Hd Hnd.
  pose proof (run_is_dispatch d availableHooks Hd Hnd initial st) as Hrun.
  pose proof (sequential_dispatch_invoked d availableHooks initial st) as Hinv.
  destruct (sequential_dispatch d availableHooks initial st) as [final st'] eqn:Hfold.
  split; [exact Hrun |]. split; [exact Hinv |]. split.
  - intros pre name hook post ->.
    rewrite sequential_dispatch_app in Hfold.
    destruct (sequential_dispatch d pre initial st) as [current st1].
    simpl in Hfold. unfold bind in Hfold.
    rewrite (body_is_step d _ name hook) by
      first [assumption | apply get_entry; [assumption | set_solver]].
    unfold sequential_step in *. simpl in *.
    destruct (method d hook current (world st1)) as [result w].
    exists (interpret d current result).
    split; [reflexivity |]. split; [by intros -> |].
    split; [by intros r -> | by rewrite Hfold].
  - split;
      [| split;
         [intros name hook Hget; by apply replacement_field_by_field
         | apply returned_field_by_field]].
    intros n1 E1 n2 E2 x w1 -> HE1.
    rewrite Hrun. simpl in Hfold.
    unfold bind, sequential_step, ret in Hfold. simpl in Hfold.
    rewrite HE1 in Hfold. simpl in Hfold.
    destruct (method d E2 (overwrite d initial x) w1) as [result w2].
    inversion Hfold; subst. simpl.
    split; [by intros -> | by intros y ->].
Qed.

(** C2.  In every sequential decorator, a hook module that replies with
    an error leaves the payload exactly as it was before it ran: its
    step gives back the payload it was called with, and only adds its
    invocation and a warning to the trace.  The hook modules after it
    run all the same, starting from that payload, every hook module of
    the registry is invoked, and the caller gets a value: the governed
    part of the payload the remaining hooks end with. *)
Theorem sequential_decorator_error_leaves_payload
    d availableHooks pre name hook post (initial : payload d) st message w :
  sequential_decorator d ->
  NoDup (LinkedHashMap.keys availableHooks) ->
  availableHooks = pre ++ (name, hook) :: post ->
  let (current, st1) := sequential_dispatch d pre initial st in
  method d hook current (world st1) = (ResultError message, w) ->
  let st2 :=
    {| world := w;
       events := events st1
                 ++ [Invoked name (call d current);
                     Warned (warning d name message)] |} in
  body d availableHooks name current st1 = (current, st2)
  /\ run d availableHooks initial st
     = (let (final, st') := sequential_dispatch d post current st2 in
        (read d final, st'))
  /\ invoked_names (events (run d availableHooks initial st).2)
     = invoked_names (events st) ++ LinkedHashMap.keys availableHooks.
Proof.
  intros Hd Hnd ->.
  pose proof (run_is_dispatch d _ Hd Hnd initial st) as Hrun.
  pose proof (sequential_dispatch_invoked d (pre ++ (name, hook) :: post)
                initial st) as Hinv.
  rewrite sequential_dispatch_app in Hrun, Hinv.
  destruct (sequential_dispatch d pre initial st) as [current st1].
  intros Hcall st2.
  assert (Hstep : sequential_step d (name, hook) current st1 = (current, st2)).
  { unfold sequential_step. simpl. by rewrite Hcall. }
  simpl in Hrun, Hinv. unfold bind in Hrun, Hinv. rewrite Hstep in Hrun, Hinv.
  split; [| split].
  - rewrite (body_is_step d _ name hook); [exact Hstep | assumption |].
    apply get_entry; [assumption | set_solver].
  - exact Hrun.
  - rewrite Hrun. destruct (sequential_dispatch d post current st2). exact Hinv.
Qed.

(** C6.  One step of the task status decorator, for a hook module that
    replies with a status: the fields the decorator does not govern stay
    as they are, and the labels and the container status are overwritten
    independently of each other, each one where the reply has it; a
    reply with only one of the two leaves the other one of the payload
    untouched. *)
Theorem status_decorator_overwrites_fields_independently
    availableHooks frameworkId name hook (status reply : TaskStatus) st w :
  LinkedHashMap.get availableHooks name = Some hook ->
  Hook.slaveTaskStatusDecorator hook frameworkId status (world st)
  = (ResultSome reply, w) ->
  let status' :=
    (HookManager.slaveTaskStatusDecorator_body
       availableHooks frameworkId name status st).1 in
  TaskStatus_other status' = TaskStatus_other status
  /\ (TaskStatus_labels reply = None ->
      TaskStatus_labels status' = TaskStatus_labels status)
  /\ (TaskStatus_container_status reply = None ->
      TaskStatus_container_status status'
      = TaskStatus_container_status status)
  /\ (forall l, TaskStatus_labels reply = Some l ->
                TaskStatus_labels status' = Some l)
  /\ (forall c, TaskStatus_container_status reply = Some c ->
                TaskStatus_container_status status' = Some c).
Proof.
  intros Hget Hcall.
  unfold HookManager.slaveTaskStatusDecorator_body.
  rewrite Hget. unfold bind, invoke, ret. rewrite Hcall. simpl.
  destruct reply as [other [l|] [c|]]; simpl;
    repeat split; intros; congruence.
Qed.

End SequentialDecorators.

(** ** The decorator of the container environment *)

Section ContainerEnvironment.
Context `{Messages}.
Implicit Types (availableHooks : HookManager.registry) (st : State).

Lemma fan_out_loop availableHooks taskInfo executorInfo containerName
    sandboxDirectory mappedDirectory env :
  NoDup (LinkedHashMap.keys availableHooks) ->
  forall futures st,
    foreach (LinkedHashMap.keys availableHooks)
      (HookManager.slavePreLaunchDockerEnvironmentDecorator_body
         availableHooks taskInfo executorInfo containerName
         sandboxDirectory mappedDirectory env) futures st
    = let (started, w) :=
        fan_out availableHooks taskInfo executorInfo containerName
          sandboxDirectory mappedDirectory env (world st) in
      (futures ++ started,
       {| world := w;
          events := events st
                    ++ map (fun name =>
                              Invoked name
                                (slavePreLaunchDockerEnvironmentDecorator_call
                                   taskInfo executorInfo containerName
                                   sandboxDirectory mappedDirectory env))
                         (LinkedHashMap.keys availableHooks) |}).
Proof.
  intros Hnd futures st.
  rewrite (foreach_keys availableHooks _
             (fun extension futures =>
                future <- invoke extension.1
                  (slavePreLaunchDockerEnvironmentDecorator_call
                     taskInfo executorInfo containerName
                     sandboxDirectory mappedDirectory env)
                  (Hook.slavePreLaunchDockerEnvironmentDecorator extension.2
                     taskInfo executorInfo containerName
                     sandboxDirectory mappedDirectory env) ;;
                ret (futures ++ [future]))); [| assumption |].
  - clear Hnd. revert futures st.
    induction availableHooks as [|[name hook] entries IH]; intros futures st.
    + simpl. unfold ret. destruct st. by rewrite !app_nil_r.
    + simpl. unfold bind at 1. unfold bind at 1, invoke, ret. simpl.
      destruct (Hook.slavePreLaunchDockerEnvironmentDecorator hook taskInfo
                  executorInfo containerName sandboxDirectory mappedDirectory
                  env (world st)) as [future w1].
      rewrite IH. simpl.
      destruct (fan_out entries taskInfo executorInfo containerName
                  sandboxDirectory mappedDirectory env w1) as [started w2].
      by rewrite <- !app_assoc.
  - intros name hook futures' st' Hget.
    unfold HookManager.slavePreLaunchDockerEnvironmentDecorator_body.
    by rewrite Hget.
Qed.

Lemma run_fan_out availableHooks taskInfo executorInfo containerName
    sandboxDirectory mappedDirectory env st :
  NoDup (LinkedHashMap.keys availableHooks) ->
  (HookManager.slavePreLaunchDockerEnvironmentDecorator availableHooks
     taskInfo executorInfo containerName sandboxDirectory mappedDirectory
     env st).1
  = and_then
      (collect (fan_out availableHooks taskInfo executorInfo containerName
                  sandboxDirectory mappedDirectory env (world st)).1)
      (fun results => Ready (HookManager.combine_environments results)).
Proof.
  intros Hnd. unfold HookManager.slavePreLaunchDockerEnvironmentDecorator, bind.
  rewrite fan_out_loop by assumption.
  by destruct (fan_out availableHooks taskInfo executorInfo containerName
                 sandboxDirectory mappedDirectory env (world st)).
Qed.

Lemma collect_ready {T} (results : list T) :
  collect (map Ready results) = Ready results.
Proof. induction results as [|r results IH]; simpl; by rewrite ?IH. Qed.

Lemma collect_failed {T} (futures : list (Future T)) message :
  Failed message ∈ futures -> exists message', collect futures = Failed message'.
Proof.
  induction futures as [|future futures IH]; intros Hin; [inversion Hin |].
  assert (Hcase : future = Failed message \/ Failed message ∈ futures)
    by (inversion Hin; subst; auto).
  simpl. destruct future as [t|m| |]; eauto;
    destruct Hcase as [Heq|Hin']; try discriminate;
    destruct (IH Hin') as [message' ->]; eauto.
Qed.

Lemma combine_environments_bindings (results : list (option Environment)) :
  HookManager.combine_environments results
  = foldl insert_variable ∅ (bindings results).
Proof.
  unfold HookManager.combine_environments, bindings.
  generalize (∅ : gmap string string).
  induction results as [|[e|] results IH]; intros m; simpl; [reflexivity | |].
  - rewrite foldl_app. apply IH.
  - apply IH.
Qed.

Lemma lookup_foldl_insert_variable vars (m : gmap string string) name :
  foldl insert_variable m vars !! name
  = match last_binding name vars with
    | Some v => Some v
    | None => m !! name
    end.
Proof.
  revert m. induction vars as [|variable vars IH]; intros m; simpl;
    [reflexivity |].
  rewrite IH. destruct (last_binding name vars); [reflexivity |].
  unfold insert_variable.
  destruct (String.eqb_spec (variable_name variable) name) as [<-|Hne].
  - by rewrite lookup_insert_eq.
  - by rewrite lookup_insert_ne.
Qed.

(** C3.  The decorator of the container environment calls every hook
    module of the registry, in its insertion order, and collects the
    futures in that order.  When every call completes with a result, the
    caller gets the map that holds, for every variable name, the value
    of the last variable of that name among the results that are
    present, taken in the order of the registry: absent results are
    skipped and, for a name given more than once, the hook module later
    in the registry wins. *)
Theorem container_environment_merge_last_wins
    availableHooks taskInfo executorInfo containerName sandboxDirectory
    mappedDirectory env st (results : list (option Environment)) :
  NoDup (LinkedHashMap.keys availableHooks) ->
  (fan_out availableHooks taskInfo executorInfo containerName
     sandboxDirectory mappedDirectory env (world st)).1
  = map Ready results ->
  let (outcome, st') :=
    HookManager.slavePreLaunchDockerEnvironmentDecorator availableHooks
      taskInfo executorInfo containerName sandboxDirectory mappedDirectory
      env st in
  invoked_names (events st')
  = invoked_names (events st) ++ LinkedHashMap.keys availableHooks
  /\ length results = length availableHooks
  /\ exists environment : gmap string string,
       outcome = Ready environment
       /\ environment = foldl insert_variable ∅ (bindings results)
       /\ forall name,
            environment !! name = last_binding name (bindings results).
Proof.
  intros Hnd Hready.
  pose proof (run_fan_out availableHooks taskInfo executorInfo containerName
                sandboxDirectory mappedDirectory env st Hnd) as Hrun.
  unfold HookManager.slavePreLaunchDockerEnvironmentDecorator, bind in *.
  rewrite fan_out_loop in * by assumption.
  destruct (fan_out availableHooks taskInfo executorInfo containerName
              sandboxDirectory mappedDirectory env (world st))
    as [started w] eqn:Hfan.
  simpl in *. subst started. split; [| split].
  - rewrite invoked_names_app. f_equal.
    generalize (LinkedHashMap.keys availableHooks).
    intros names. induction names as [|name names IH]; simpl; by rewrite ?IH.
  - assert (Hlen : forall entries w0,
               length (fan_out entries taskInfo executorInfo containerName
                         sandboxDirectory mappedDirectory env w0).1
               = length entries).
    { induction entries as [|[name hook] entries IH]; intros w0; simpl;
        [reflexivity |].
      destruct (Hook.slavePreLaunchDockerEnvironmentDecorator hook taskInfo
                  executorInfo containerName sandboxDirectory mappedDirectory
                  env w0) as [future w1].
      specialize (IH w1).
      destruct (fan_out entries taskInfo executorInfo containerName
                  sandboxDirectory mappedDirectory env w1). simpl in *.
      by rewrite IH. }
    specialize (Hlen availableHooks (world st)). rewrite Hfan in Hlen.
    simpl in Hlen. by rewrite length_map in Hlen.
  - exists (HookManager.combine_environments results).
    rewrite collect_ready. simpl. split; [reflexivity |].
    split; [apply combine_environments_bindings |].
    intros name. rewrite combine_environments_bindings.
    rewrite lookup_foldl_insert_variable.
    destruct (last_binding name (bindings results)); [reflexivity |].
    apply lookup_empty.
Qed.

(** C4.  If one of the calls the decorator of the container environment
    has started fails, the caller gets a failed outcome, whatever the
    other calls have come to: there is no map, not even a partial one. *)
Theorem container_environment_failure_fails_all
    availableHooks taskInfo executorInfo containerName sandboxDirectory
    mappedDirectory env st message :
  NoDup (LinkedHashMap.keys availableHooks) ->
  Failed message
    ∈ (fan_out availableHooks taskInfo executorInfo containerName
         sandboxDirectory mappedDirectory env (world st)).1 ->
  let outcome :=
    (HookManager.slavePreLaunchDockerEnvironmentDecorator availableHooks
       taskInfo executorInfo containerName sandboxDirectory mappedDirectory
       env st).1 in
  (exists message', outcome = Failed message')
  /\ (forall environment, outcome <> Ready environment).
Proof.
  intros Hnd Hin outcome. subst outcome.
  rewrite run_fan_out by assumption.
  destruct (collect_failed _ _ Hin) as [message' ->]. simpl.
  split; [by exists message' | discriminate].
Qed.

End ContainerEnvironment.

(** ** No hook module loaded *)

Section EmptyRegistry.
Context `{Messages}.

(** C8.  With no hook module loaded, every sequential decorator gives
    the governed part of its input back and leaves the world and the
    trace as they are, every notification does nothing, and the
    decorator of the container environment succeeds with the empty
    map. *)
Theorem empty_registry_dispatch_is_noop
    (taskInfo : TaskInfo) (frameworkInfo : FrameworkInfo)
    (slaveInfo : SlaveInfo) (executorInfo : ExecutorInfo)
    (frameworkId : FrameworkID) (status : TaskStatus)
    (containerInfo : ContainerInfo) (commandInfo : CommandInfo)
    (containerId : ContainerID) (optionalTask : option TaskInfo)
    (containerName sandboxDirectory mappedDirectory directory : string)
    (optionalResources : option Resources)
    (env : option (gmap string string)) (st : State) :
  HookManager.hooksAvailable [] = false
  /\ HookManager.masterLaunchTaskLabelDecorator
       [] taskInfo frameworkInfo slaveInfo st
     = (labels taskInfo, st)
  /\ HookManager.slaveRunTaskLabelDecorator
       [] taskInfo executorInfo frameworkInfo slaveInfo st
     = (labels taskInfo, st)
  /\ HookManager.slaveExecutorEnvironmentDecorator [] executorInfo st
     = (environment (command executorInfo), st)
  /\ HookManager.slaveTaskStatusDecorator [] frameworkId status st
     = (status, st)
  /\ HookManager.slaveResourcesDecorator [] slaveInfo st
     = (resources slaveInfo, st)
  /\ HookManager.slaveAttributesDecorator [] slaveInfo st
     = (attributes slaveInfo, st)
  /\ HookManager.masterSlaveLostHook [] slaveInfo st = (tt, st)
  /\ HookManager.slavePreLaunchDockerHook [] containerInfo commandInfo
       optionalTask executorInfo containerName sandboxDirectory
       mappedDirectory optionalResources env st
     = (tt, st)
  /\ HookManager.slavePostFetchHook [] containerId directory st = (tt, st)
  /\ HookManager.slaveRemoveExecutorHook [] frameworkInfo executorInfo st
     = (tt, st)
  /\ HookManager.slavePreLaunchDockerEnvironmentDecorator [] optionalTask
       executorInfo containerName sandboxDirectory mappedDirectory env st
     = (Ready ∅, st).
Proof. repeat split. Qed.

End EmptyRegistry.

(** ** The registry *)

Section Registry.
Context `{Messages}.
Implicit Types (availableHooks : HookManager.registry) (modules : ModuleManager.t).

Lemma split_not_nil s delims : split s delims <> [].
Proof.
  destruct s as [|c s]; simpl; [discriminate |].
  destruct (is_delim c delims); [discriminate |].
  destruct (split s delims); discriminate.
Qed.

(** Cutting at a delimiter cuts the list of tokens. *)
Lemma split_app_delim s1 s2 c delims :
  is_delim c delims = true ->
  split (s1 +:+ String c s2) delims = split s1 delims ++ split s2 delims.
Proof.
  intros Hc. induction s1 as [|c1 s1 IH]; simpl.
  - by rewrite Hc.
  - rewrite IH. destruct (is_delim c1 delims); [reflexivity |].
    pose proof (split_not_nil s1 delims).
    destruct (split s1 delims); [congruence | reflexivity].
Qed.

Lemma split_delimiter_free s delims :
  delimiter_free s delims = true -> split s delims = [s].
Proof.
  induction s as [|c s IH]; simpl; [reflexivity |].
  destruct (is_delim c delims); simpl; [discriminate |].
  intros Hfree. by rewrite IH.
Qed.

Lemma initialize_loop_app modules hooks1 hooks2 availableHooks :
  HookManager.initialize_loop modules (hooks1 ++ hooks2) availableHooks
  = match HookManager.initialize_loop modules hooks1 availableHooks with
    | (TrySome _, availableHooks') =>
        HookManager.initialize_loop modules hooks2 availableHooks'
    | (TryError message, availableHooks') => (TryError message, availableHooks')
    end.
Proof.
  revert availableHooks.
  induction hooks1 as [|hook hooks1 IH]; intros availableHooks; simpl;
    [reflexivity |].
  destruct (LinkedHashMap.contains availableHooks hook); [reflexivity |].
  destruct (negb (ModuleManager.contains modules hook)); [reflexivity |].
  destruct (ModuleManager.create modules hook); [apply IH | reflexivity].
Qed.

(** What the loop of [initialize] comes to: the names before the first
    one that fails are loaded, in their order, behind the entries that
    were there; nothing else changes. *)
Lemma initialize_loop_outcome modules hooks availableHooks :
  let (result, availableHooks') :=
    HookManager.initialize_loop modules hooks availableHooks in
  exists loaded added,
    Forall2 (loads modules) loaded added
    /\ availableHooks' = availableHooks ++ added
    /\ (forall hook, hook ∈ loaded ->
                     LinkedHashMap.contains availableHooks hook = false)
    /\ NoDup loaded
    /\ match result with
       | TrySome _ => hooks = loaded
       | TryError message =>
           exists failing later,
             hooks = loaded ++ failing :: later
             /\ load_failure modules availableHooks' failing message
       end.
Proof.
  revert availableHooks.
  induction hooks as [|hook hooks IH]; intros availableHooks; simpl.
  - exists [], []. rewrite app_nil_r.
    repeat split; [constructor | set_solver | constructor].
  - destruct (LinkedHashMap.contains availableHooks hook) eqn:Hloaded.
    { exists [], []. rewrite app_nil_r.
      repeat split; [constructor | set_solver | constructor |].
      exists hook, hooks. split; [reflexivity | by constructor]. }
    destruct (ModuleManager.contains modules hook) eqn:Hknown; simpl.
    2:{ exists [], []. rewrite app_nil_r.
        repeat split; [constructor | set_solver | constructor |].
        exists hook, hooks. split; [reflexivity | by constructor]. }
    destruct (ModuleManager.create modules hook) as [module|reason] eqn:Hcreate.
    2:{ exists [], []. rewrite app_nil_r.
        repeat split; [constructor | set_solver | constructor |].
        exists hook, hooks. split; [reflexivity | by constructor]. }
    rewrite put_absent by assumption.
    specialize (IH (availableHooks ++ [(hook, module)])).
    destruct (HookManager.initialize_loop modules hooks
                (availableHooks ++ [(hook, module)])) as [result availableHooks'].
    destruct IH as (loaded & added & Hloads & -> & Hfresh & Hnd & Hresult).
    exists (hook :: loaded), ((hook, module) :: added).
    assert (Hnotin : hook ∉ loaded).
    { intros Hin. apply Hfresh in Hin. rewrite contains_app in Hin.
      simpl in Hin. rewrite String.eqb_refl in Hin.
      by rewrite orb_true_r in Hin. }
    split; [by constructor |]. split; [by rewrite <- app_assoc |].
    split; [| split; [by constructor |]].
    + intros hook' Hin. inversion Hin; subst; [assumption |].
      match goal with Hin' : hook' ∈ loaded |- _ => apply Hfresh in Hin' as Hc end.
      rewrite contains_app in Hc. by apply orb_false_iff in Hc as [? _].
    + destruct result as [?|message]; [by subst |].
      destruct Hresult as (failing & later & -> & Hfail).
      exists failing, later. split; [reflexivity |].
      exact Hfail.
Qed.

(** The tokens hold no delimiter. *)
Lemma split_tokens_delimiter_free s delims :
  Forall (fun token => delimiter_free token delims = true) (split s delims).
Proof.
  induction s as [|c s IH]; simpl; [by repeat constructor |].
  destruct (is_delim c delims) eqn:Hc; [by constructor |].
  pose proof (split_not_nil s delims) as Hnil.
  destruct (split s delims) as [|token tokens]; [congruence |].
  apply Forall_cons in IH as [Htoken Htokens].
  constructor; [| assumption]. simpl. by rewrite Hc, Htoken.
Qed.

Lemma loads_keys modules loaded added :
  Forall2 (loads modules) loaded added -> LinkedHashMap.keys added = loaded.
Proof.
  induction 1 as [|hook entry loaded added [Hname _] _ IH]; simpl;
    [reflexivity |].
  by rewrite Hname, IH.
Qed.

(** The keys of the registry stay unique. *)
Lemma initialize_keys_unique modules hookList availableHooks :
  NoDup (LinkedHashMap.keys availableHooks) ->
  NoDup (LinkedHashMap.keys
           (HookManager.initialize modules hookList availableHooks).2).
Proof.
  intros Hnd. unfold HookManager.initialize.
  pose proof (initialize_loop_outcome modules (split hookList ",")
                availableHooks) as Hout.
  destruct (HookManager.initialize_loop modules (split hookList ",")
              availableHooks) as [result availableHooks'].
  destruct Hout as (loaded & added & Hloads & -> & Hfresh & Hloaded & _).
  simpl. unfold LinkedHashMap.keys. rewrite map_app.
  fold (LinkedHashMap.keys availableHooks) (LinkedHashMap.keys added).
  rewrite (loads_keys _ _ _ Hloads).
  apply NoDup_app. split; [assumption |]. split; [| assumption].
  intros hook Hin Hin'. apply Hfresh in Hin'.
  apply contains_false_keys in Hin'. contradiction.
Qed.

(** The keys of the registry are names: no comma in them. *)
Lemma initialize_keys_delimiter_free modules hookList availableHooks :
  Forall (fun key => delimiter_free key "," = true)
    (LinkedHashMap.keys availableHooks) ->
  Forall (fun key => delimiter_free key "," = true)
    (LinkedHashMap.keys
       (HookManager.initialize modules hookList availableHooks).2).
Proof.
  intros Hfree. unfold HookManager.initialize.
  pose proof (initialize_loop_outcome modules (split hookList ",")
                availableHooks) as Hout.
  pose proof (split_tokens_delimiter_free hookList ",") as Htokens.
  destruct (HookManager.initialize_loop modules (split hookList ",")
              availableHooks) as [result availableHooks'].
  destruct Hout as (loaded & added & Hloads & -> & _ & _ & Hresult).
  simpl. unfold LinkedHashMap.keys. rewrite map_app.
  fold (LinkedHashMap.keys availableHooks) (LinkedHashMap.keys added).
  rewrite (loads_keys _ _ _ Hloads).
  apply Forall_app. split; [assumption |].
  destruct result as [?|message].
  - by rewrite <- Hresult.
  - destruct Hresult as (failing & later & Heq & _).
    rewrite Heq in Htokens. by apply Forall_app in Htokens as [? _].
Qed.

Lemma unload_keys_delimiter_free hookName availableHooks :
  Forall (fun key => delimiter_free key "," = true)
    (LinkedHashMap.keys availableHooks) ->
  Forall (fun key => delimiter_free key "," = true)
    (LinkedHashMap.keys (HookManager.unload hookName availableHooks).2).
Proof.
  intros Hfree. unfold HookManager.unload.
  destruct (negb (LinkedHashMap.contains availableHooks hookName)); simpl;
    [assumption |].
  rewrite keys_erase. rewrite Forall_forall in Hfree. apply Forall_forall.
  intros key Hin. apply Hfree. by apply list_elem_of_filter in Hin as [_ ?].
Qed.

Lemma unload_keys_unique hookName availableHooks :
  NoDup (LinkedHashMap.keys availableHooks) ->
  NoDup (LinkedHashMap.keys (HookManager.unload hookName availableHooks).2).
Proof.
  intros Hnd. unfold HookManager.unload.
  destruct (negb (LinkedHashMap.contains availableHooks hookName)); simpl;
    [assumption |].
  rewrite keys_erase. by apply NoDup_filter.
Qed.

(** C5, as amended.  One call of [initialize] goes through the names in
    their order and stops at the first one that fails: the names before
    it have been inserted, behind the entries that were there, and stay
    loaded (nothing is rolled back); the failing name and the names
    after it are not inserted, so that a name is loaded after the call
    exactly if it was loaded before the call or is one of the names
    before the failing one; and the call gives the error of that first
    failure.  Without a failure every name has been inserted.  So, on
    the empty registry, for the names a, bad and c, where a loads and
    the module manager does not know bad: a alone is loaded and the
    error says that there is no module bad. *)
Theorem initialize_stops_at_first_failure modules hookList availableHooks :
  (let (result, availableHooks') :=
     HookManager.initialize modules hookList availableHooks in
   exists loaded added,
     Forall2 (loads modules) loaded added
     /\ availableHooks' = availableHooks ++ added
     /\ (forall name,
           LinkedHashMap.contains availableHooks' name
           = LinkedHashMap.contains availableHooks name
             || bool_decide (name ∈ loaded))
     /\ match result with
        | TrySome _ => split hookList "," = loaded
        | TryError message =>
            exists failing later,
              split hookList "," = loaded ++ failing :: later
              /\ load_failure modules availableHooks' failing message
        end)
  /\ (forall a bad c instance,
        hookList = a +:+ "," +:+ bad +:+ "," +:+ c ->
        availableHooks = [] ->
        delimiter_free a "," = true ->
        delimiter_free bad "," = true ->
        ModuleManager.contains modules a = true ->
        ModuleManager.create modules a = TrySome instance ->
        bad <> a ->
        ModuleManager.contains modules bad = false ->
        HookManager.initialize modules hookList availableHooks
        = (TryError ("No hook module named '" +:+ bad +:+ "' available"),
           [(a, instance)])).
Proof.
  split.
  - unfold HookManager.initialize.
    pose proof (initialize_loop_outcome modules (split hookList ",")
                  availableHooks) as Hout.
    destruct (HookManager.initialize_loop modules (split hookList ",")
                availableHooks) as [result availableHooks'].
    destruct Hout as (loaded & added & Hloads & -> & _ & _ & Hresult).
    exists loaded, added. split; [assumption |]. split; [reflexivity |].
    split; [| assumption].
    intros name. rewrite contains_app. f_equal.
    rewrite <- (loads_keys _ _ _ Hloads).
    destruct (LinkedHashMap.contains added name) eqn:Hc.
    + symmetry. apply bool_decide_eq_true. by apply contains_keys.
    + symmetry. apply bool_decide_eq_false. by apply contains_false_keys.
  - intros a bad c instance -> -> Ha Hbad Hknown Hcreate Hne Hunknown.
    unfold HookManager.initialize.
    change (a +:+ "," +:+ bad +:+ "," +:+ c)
      with (a +:+ String "," (bad +:+ String "," c)).
    rewrite !(split_app_delim _ _ "," ",") by reflexivity.
    rewrite !split_delimiter_free by assumption.
    simpl. rewrite Hknown, Hcreate. simpl.
    destruct (String.eqb_spec a bad) as [Heq|_]; [congruence |].
    by rewrite Hunknown.
Qed.

(** C7.  Loading a name that is in the registry fails with the error
    that says the hook module is loaded already, and the registry is
    given back as it was, the instance loaded under that name included:
    so for the loop of [initialize] at that name, whatever names follow,
    and so for [initialize] called with the name, in every registry
    whose keys are names (there is no comma in a name, and none in a key
    of a registry that [initialize] has built). *)
Theorem loading_a_loaded_name_fails modules availableHooks name :
  LinkedHashMap.contains availableHooks name = true ->
  (forall later,
      HookManager.initialize_loop modules (name :: later) availableHooks
      = (TryError ("Hook module '" +:+ name +:+ "' already loaded"),
         availableHooks))
  /\ (delimiter_free name "," = true
      \/ Forall (fun key => delimiter_free key "," = true)
           (LinkedHashMap.keys availableHooks) ->
      HookManager.initialize modules name availableHooks
      = (TryError ("Hook module '" +:+ name +:+ "' already loaded"),
         availableHooks)
      /\ LinkedHashMap.get
           (HookManager.initialize modules name availableHooks).2 name
         = LinkedHashMap.get availableHooks name).
Proof.
  intros Hloaded.
  assert (Hloop : forall later,
             HookManager.initialize_loop modules (name :: later) availableHooks
             = (TryError ("Hook module '" +:+ name +:+ "' already loaded"),
                availableHooks))
    by (intros later; simpl; by rewrite Hloaded).
  split; [exact Hloop |].
  intros Hname.
  assert (Hfree : delimiter_free name "," = true).
  { destruct Hname as [Hfree|Hkeys]; [assumption |].
    rewrite Forall_forall in Hkeys. apply Hkeys. by apply contains_keys. }
  assert (Hinit : HookManager.initialize modules name availableHooks
                  = (TryError ("Hook module '" +:+ name +:+ "' already loaded"),
                     availableHooks)).
  { unfold HookManager.initialize.
    rewrite split_delimiter_free by assumption. apply Hloop. }
  split; [exact Hinit | by rewrite Hinit].
Qed.

(** C10, as amended.  The empty string is not a list of no names: its
    only token is the empty name, and an input with a comma in front, a
    comma at its end or two commas in a row has the empty name among its
    tokens.  Unless the module manager has a module of the empty name,
    [initialize] then never succeeds: it fails at the first name that
    fails, which is the empty name or a name before it, the names
    before the failing one having been loaded.  Called with the empty
    string, or with an input that starts with a comma, it fails at once
    with the error that says there is no such module and loads nothing
    (the registry not holding the empty name). *)
Theorem initialize_with_an_empty_name modules availableHooks :
  ModuleManager.contains modules "" = false ->
  split "" "," = [""]
  /\ (forall s s',
        "" ∈ split ("," +:+ s) ","
        /\ "" ∈ split (s +:+ ",") ","
        /\ "" ∈ split (s +:+ ",," +:+ s') ",")
  /\ (forall hookList,
        "" ∈ split hookList "," ->
        let (result, availableHooks') :=
          HookManager.initialize modules hookList availableHooks in
        exists loaded added failing later message,
          result = TryError message
          /\ split hookList "," = loaded ++ failing :: later
          /\ Forall2 (loads modules) loaded added
          /\ availableHooks' = availableHooks ++ added
          /\ load_failure modules availableHooks' failing message
          /\ "" ∈ failing :: later)
  /\ (LinkedHashMap.contains availableHooks "" = false ->
      forall hookList,
        hookList = "" \/ (exists s, hookList = "," +:+ s) ->
        HookManager.initialize modules hookList availableHooks
        = (TryError "No hook module named '' available", availableHooks)).
Proof.
  intros Hnone. split; [reflexivity |]. split; [| split].
  - intros s s'. split; [simpl; left |]. split.
    + rewrite (split_app_delim s "" "," ",") by reflexivity.
      simpl. set_solver.
    + change (s +:+ ",," +:+ s') with (s +:+ String "," ("," +:+ s')).
      rewrite (split_app_delim s _ "," ",") by reflexivity.
      simpl. set_solver.
  - intros hookList Hin. unfold HookManager.initialize.
    pose proof (initialize_loop_outcome modules (split hookList ",")
                  availableHooks) as Hout.
    destruct (HookManager.initialize_loop modules (split hookList ",")
                availableHooks) as [result availableHooks'].
    destruct Hout as (loaded & added & Hloads & -> & _ & _ & Hresult).
    assert (Hnot : "" ∉ loaded).
    { clear Hresult Hin. intros Hin.
      induction Hloads as [|hook entry loaded added (_ & Hknown & _) _ IH];
        [inversion Hin |].
      inversion Hin; subst; [congruence | by apply IH]. }
    destruct result as [?|message].
    + exfalso. apply Hnot. by rewrite <- Hresult.
    + destruct Hresult as (failing & later & Heq & Hfail).
      exists loaded, added, failing, later, message.
      repeat (split; [done |]).
      rewrite Heq in Hin. apply elem_of_app in Hin as [Hin|Hin]; [| assumption].
      contradiction.
  - intros Hfresh hookList [->|[s ->]]; unfold HookManager.initialize; simpl;
      by rewrite Hfresh, Hnone.
Qed.

End Registry.

(** ** More about the registry *)

Section RegistryMore.
Context `{Messages}.
Implicit Types (availableHooks : HookManager.registry) (modules : ModuleManager.t).

Lemma contains_erase {V} (m : LinkedHashMap.t V) k :
  LinkedHashMap.contains (LinkedHashMap.erase m k) k = false.
Proof.
  induction m as [|[k' v'] m IH]; simpl; [reflexivity |].
  destruct (String.eqb k' k) eqn:Hk; [exact IH |]. simpl. by rewrite Hk.
Qed.

Lemma get_erase_ne {V} (m : LinkedHashMap.t V) k other :
  other <> k ->
  LinkedHashMap.get (LinkedHashMap.erase m k) other = LinkedHashMap.get m other.
Proof.
  intros Hne. induction m as [|[k' v'] m IH]; simpl; [reflexivity |].
  destruct (String.eqb_spec k' k) as [->|Hk].
  - rewrite IH. destruct (String.eqb_spec k other); [congruence | reflexivity].
  - simpl. by rewrite IH.
Qed.

Lemma erase_absent {V} (m : LinkedHashMap.t V) k :
  LinkedHashMap.contains m k = false -> LinkedHashMap.erase m k = m.
Proof.
  induction m as [|[k' v'] m IH]; simpl; [reflexivity |].
  destruct (String.eqb k' k); [discriminate |]. intros Hc. by rewrite IH.
Qed.

Lemma erase_app {V} (m1 m2 : LinkedHashMap.t V) k :
  LinkedHashMap.erase (m1 ++ m2) k
  = LinkedHashMap.erase m1 k ++ LinkedHashMap.erase m2 k.
Proof.
  induction m1 as [|[k' v'] m1 IH]; simpl; [reflexivity |].
  destruct (String.eqb k' k); [exact IH |]. simpl. by rewrite IH.
Qed.

Lemma get_app {V} (m1 m2 : LinkedHashMap.t V) k :
  LinkedHashMap.get (m1 ++ m2) k
  = match LinkedHashMap.get m1 k with
    | Some v => Some v
    | None => LinkedHashMap.get m2 k
    end.
Proof.
  induction m1 as [|[k' v'] m1 IH]; simpl; [reflexivity |].
  destruct (String.eqb k' k); [reflexivity | exact IH].
Qed.

Lemma get_absent {V} (m : LinkedHashMap.t V) k :
  LinkedHashMap.contains m k = false -> LinkedHashMap.get m k = None.
Proof.
  induction m as [|[k' v'] m IH]; simpl; [reflexivity |].
  destruct (String.eqb k' k); [discriminate | exact IH].
Qed.

(** One name that is new to the registry and that the module manager
    instantiates is put behind the entries that are there. *)
Lemma initialize_one modules availableHooks name instance :
  delimiter_free name "," = true ->
  LinkedHashMap.contains availableHooks name = false ->
  ModuleManager.contains modules name = true ->
  ModuleManager.create modules name = TrySome instance ->
  HookManager.initialize modules name availableHooks
  = (TrySome nothing, availableHooks ++ [(name, instance)]).
Proof.
  intros Hfree Hnew Hknown Hcreate. unfold HookManager.initialize.
  rewrite split_delimiter_free by assumption. simpl.
  rewrite Hnew, Hknown, Hcreate. simpl. by rewrite put_absent.
Qed.

(** X1.  What [unload] comes to.  A name that is loaded is taken out:
    the call succeeds and the name is not in the registry any more.  A
    name that is not loaded gives the error that says so, and the
    registry is given back as it was.  Either way every other name
    keeps its instance, and the names that stay keep their order. *)
Theorem unload_takes_one_name_out hookName availableHooks :
  let (result, availableHooks') :=
    HookManager.unload hookName availableHooks in
  (LinkedHashMap.contains availableHooks hookName = true ->
   result = TrySome nothing
   /\ LinkedHashMap.contains availableHooks' hookName = false)
  /\ (LinkedHashMap.contains availableHooks hookName = false ->
      result = TryError ("Error unloading hook module '" +:+ hookName
                         +:+ "': module not loaded")
      /\ availableHooks' = availableHooks)
  /\ (forall other,
        other <> hookName ->
        LinkedHashMap.get availableHooks' other
        = LinkedHashMap.get availableHooks other)
  /\ LinkedHashMap.keys availableHooks'
     = filter (fun name => name <> hookName)
         (LinkedHashMap.keys availableHooks).
Proof.
  unfold HookManager.unload.
  destruct (LinkedHashMap.contains availableHooks hookName) eqn:Hloaded; simpl.
  - split; [intros _; split; [reflexivity | apply contains_erase] |].
    split; [discriminate |].
    split; [intros other Hne; by apply get_erase_ne | apply keys_erase].
  - split; [discriminate |]. split; [by intros _ |].
    split; [reflexivity |].
    rewrite <- keys_erase. by rewrite erase_absent.
Qed.

(** X2.  Loading a new name and unloading it again gives the registry
    back as it was: [initialize] with one name that is not loaded, and
    that the module manager instantiates, succeeds and puts the name at
    the end of the order, and [unload] of that name then succeeds and
    leaves exactly the entries that were there before. *)
Theorem load_then_unload_restores modules availableHooks name instance :
  delimiter_free name "," = true ->
  LinkedHashMap.contains availableHooks name = false ->
  ModuleManager.contains modules name = true ->
  ModuleManager.create modules name = TrySome instance ->
  let (loaded, availableHooks') :=
    HookManager.initialize modules name availableHooks in
  loaded = TrySome nothing
  /\ availableHooks' = availableHooks ++ [(name, instance)]
  /\ HookManager.unload name availableHooks'
     = (TrySome nothing, availableHooks).
Proof.
  intros Hfree Hnew Hknown Hcreate.
  rewrite (initialize_one _ _ _ instance) by assumption.
  split; [reflexivity |]. split; [reflexivity |].
  unfold HookManager.unload. rewrite contains_app. simpl.
  rewrite String.eqb_refl, orb_true_r. simpl.
  rewrite erase_app, erase_absent by assumption. simpl.
  by rewrite String.eqb_refl, app_nil_r.
Qed.

(** X3.  Unloading a loaded name and loading it again moves it to the
    end of the order: both calls succeed, the name comes last with the
    instance the module manager has made, and the other names are where
    they were, with their instances. *)
Theorem unload_then_load_goes_last modules availableHooks name instance :
  delimiter_free name "," = true ->
  LinkedHashMap.contains availableHooks name = true ->
  ModuleManager.contains modules name = true ->
  ModuleManager.create modules name = TrySome instance ->
  let (unloaded, availableHooks') :=
    HookManager.unload name availableHooks in
  let (loaded, availableHooks'') :=
    HookManager.initialize modules name availableHooks' in
  unloaded = TrySome nothing
  /\ loaded = TrySome nothing
  /\ LinkedHashMap.keys availableHooks''
     = filter (fun other => other <> name)
         (LinkedHashMap.keys availableHooks) ++ [name]
  /\ LinkedHashMap.get availableHooks'' name = Some instance
  /\ (forall other,
        other <> name ->
        LinkedHashMap.get availableHooks'' other
        = LinkedHashMap.get availableHooks other).
Proof.
  intros Hfree Hloaded Hknown Hcreate.
  unfold HookManager.unload. rewrite Hloaded. simpl.
  rewrite (initialize_one _ _ _ instance);
    [| assumption | apply contains_erase | assumption | assumption].
  split; [reflexivity |]. split; [reflexivity |]. split; [| split].
  - unfold LinkedHashMap.keys. rewrite map_app. simpl.
    fold (LinkedHashMap.keys (LinkedHashMap.erase availableHooks name)).
    by rewrite keys_erase.
  - rewrite get_app, get_absent by apply contains_erase.
    simpl. by rewrite String.eqb_refl.
  - intros other Hne. rewrite get_app, get_erase_ne by assumption.
    destruct (LinkedHashMap.get availableHooks other); [reflexivity |].
    simpl. destruct (String.eqb_spec name other); [congruence | reflexivity].
Qed.

(** X4.  When [initialize] succeeds, every name of its list was new to
    the registry, no name comes twice in the list, the module manager
    knows every name, and afterwards every name of the list is found in
    the registry with the instance the module manager has made for it;
    the names stand behind the ones that were there, in the order of
    the list, and there are hook modules available. *)
Theorem initialize_success_loads_every_name
    modules hookList availableHooks done availableHooks' :
  HookManager.initialize modules hookList availableHooks
  = (TrySome done, availableHooks') ->
  NoDup (split hookList ",")
  /\ LinkedHashMap.keys availableHooks'
     = LinkedHashMap.keys availableHooks ++ split hookList ","
  /\ HookManager.hooksAvailable availableHooks' = true
  /\ (forall name,
        name ∈ split hookList "," ->
        LinkedHashMap.contains availableHooks name = false
        /\ ModuleManager.contains modules name = true
        /\ exists instance,
             ModuleManager.create modules name = TrySome instance
             /\ LinkedHashMap.get availableHooks' name = Some instance).
Proof.
  unfold HookManager.initialize. intros Hinit.
  pose proof (initialize_loop_outcome modules (split hookList ",")
                availableHooks) as Hout.
  rewrite Hinit in Hout.
  destruct Hout as (loaded & added & Hloads & -> & Hfresh & Hnd & <-).
  pose proof (loads_keys _ _ _ Hloads) as Hkeys.
  split; [assumption |]. split; [| split].
  - unfold LinkedHashMap.keys. rewrite map_app.
    fold (LinkedHashMap.keys added). by rewrite Hkeys.
  - pose proof (split_not_nil hookList ",") as Hnil.
    destruct Hloads; [congruence |].
    unfold HookManager.hooksAvailable. by destruct availableHooks.
  - intros name Hin. split; [by apply Hfresh |].
    assert (Hentry : exists instance,
               (name, instance) ∈ added
               /\ ModuleManager.contains modules name = true
               /\ ModuleManager.create modules name = TrySome instance).
    { clear Hfresh Hnd Hkeys Hinit.
      induction Hloads as [|hook [name' instance] loaded added
                             (Hname & Hknown & Hcreate) _ IH];
        [inversion Hin |].
      simpl in *. subst name'.
      inversion Hin; subst.
      - exists instance. split; [left | by split].
      - destruct (IH ltac:(assumption)) as (instance' & Hin' & Hrest).
        exists instance'. split; [by right | assumption]. }
    destruct Hentry as (instance & Hin' & Hknown & Hcreate).
    split; [assumption |]. exists instance. split; [assumption |].
    rewrite get_app, get_absent by (by apply Hfresh).
    apply get_entry; [by rewrite Hkeys | assumption].
Qed.

(** X5.  [initialize] with two lists joined by a comma is [initialize]
    with the first list and, if that succeeds, [initialize] with the
    second list on the registry it has made; if the first list fails,
    the call fails with its error and its registry, and nothing of the
    second list is looked at. *)
Theorem initialize_composes modules hookList1 hookList2 availableHooks :
  HookManager.initialize modules (hookList1 +:+ "," +:+ hookList2)
    availableHooks
  = match HookManager.initialize modules hookList1 availableHooks with
    | (TrySome _, availableHooks') =>
        HookManager.initialize modules hookList2 availableHooks'
    | (TryError message, availableHooks') =>
        (TryError message, availableHooks')
    end.
Proof.
  unfold HookManager.initialize.
  change (hookList1 +:+ "," +:+ hookList2)
    with (hookList1 +:+ String "," hookList2).
  rewrite (split_app_delim _ _ "," ",") by reflexivity.
  apply initialize_loop_app.
Qed.

End RegistryMore.

(** ** More about the dispatch functions *)

Section DispatchMore.
Context `{Messages}.
Implicit Types (availableHooks : HookManager.registry) (st : State).

Lemma get_elem_of {V} (m : LinkedHashMap.t V) k v :
  LinkedHashMap.get m k = Some v -> (k, v) ∈ m.
Proof.
  induction m as [|[k' v'] m IH]; simpl; [discriminate |].
  destruct (String.eqb_spec k' k) as [->|Hne].
  - intros [= ->]. left.
  - intros Hget. right. by apply IH.
Qed.

(** A name that is not found leaves the loop of a decorator where it
    is. *)
Lemma body_not_found d availableHooks name (current : payload d) st :
  sequential_decorator d ->
  LinkedHashMap.get availableHooks name = None ->
  body d availableHooks name current st = (current, st).
Proof.
  intros Hd Hget.
  destruct Hd; cbn [body master_label_decoration agent_label_decoration
       environment_decoration status_decoration resources_decoration
       attributes_decoration];
    unfold HookManager.masterLaunchTaskLabelDecorator_body,
      HookManager.slaveRunTaskLabelDecorator_body,
      HookManager.slaveExecutorEnvironmentDecorator_body,
      HookManager.slaveTaskStatusDecorator_body,
      HookManager.slaveResourcesDecorator_body,
      HookManager.slaveAttributesDecorator_body;
    by rewrite Hget.
Qed.

(** What replacements keep, the loop of a decorator keeps: it holds of
    the payload every hook module is called with and of the payload at
    the end. *)
Lemma loop_keeps d availableHooks (I : payload d -> Prop) names :
  sequential_decorator d ->
  (forall current r, I current -> I (overwrite d current r)) ->
  forall current st,
    I current ->
    I (foreach names (body d availableHooks) current st).1
    /\ shown_to_hooks (fun c => exists shown, c = call d shown /\ I shown)
         st (foreach names (body d availableHooks) current st).2.
Proof.
  intros Hd Hkeeps.
  induction names as [|name names IH]; intros current st Hcurrent; simpl.
  - split; [assumption |]. exists []. by rewrite app_nil_r.
  - unfold bind.
    destruct (LinkedHashMap.get availableHooks name) as [hook|] eqn:Hget.
    + rewrite (body_is_step d _ name hook) by assumption.
      unfold sequential_step. simpl.
      destruct (method d hook current (world st)) as [result w].
      assert (Hnext : I (interpret d current result))
        by (destruct result; simpl; auto).
      destruct (IH (interpret d current result)
                  {| world := w;
                     events := events st
                               ++ Invoked name (call d current)
                                  :: logged d name result |} Hnext)
        as (Hfinal & added & Hevents & Hshown).
      split; [assumption |].
      exists (Invoked name (call d current) :: logged d name result ++ added).
      split.
      * rewrite Hevents. simpl. by rewrite <- app_assoc.
      * constructor; [by exists current |].
        apply Forall_app. split; [by destruct result; repeat constructor |].
        assumption.
    + rewrite body_not_found by assumption. by apply IH.
Qed.

(** X6.  The payload a decorator hands from hook module to hook module
    differs from its input in the governed fields only.  Every hook
    module is called with the identity of the task, of the executor and
    its command, of the status or of the agent that the caller gave,
    and with the other one of resources and attributes as the caller
    gave it; the status that the status decorator returns has the
    ungoverned fields of its input, and labels or a container status
    that the input has are never taken away. *)
Theorem decorators_keep_ungoverned_fields
    availableHooks (taskInfo : TaskInfo) (executorInfo : ExecutorInfo)
    (frameworkInfo : FrameworkInfo) (slaveInfo : SlaveInfo)
    (frameworkId : FrameworkID) (status : TaskStatus) st :
  shown_to_hooks
    (fun c => exists shown,
         c = masterLaunchTaskLabelDecorator_call shown frameworkInfo slaveInfo
         /\ TaskInfo_other shown = TaskInfo_other taskInfo)
    st (HookManager.masterLaunchTaskLabelDecorator
          availableHooks taskInfo frameworkInfo slaveInfo st).2
  /\ shown_to_hooks
       (fun c => exists shown,
            c = slaveRunTaskLabelDecorator_call
                  shown executorInfo frameworkInfo slaveInfo
            /\ TaskInfo_other shown = TaskInfo_other taskInfo)
       st (HookManager.slaveRunTaskLabelDecorator
             availableHooks taskInfo executorInfo frameworkInfo slaveInfo
             st).2
  /\ shown_to_hooks
       (fun c => exists shown,
            c = slaveExecutorEnvironmentDecorator_call shown
            /\ ExecutorInfo_other shown = ExecutorInfo_other executorInfo
            /\ CommandInfo_other (command shown)
               = CommandInfo_other (command executorInfo))
       st (HookManager.slaveExecutorEnvironmentDecorator
             availableHooks executorInfo st).2
  /\ (let (status', st') :=
        HookManager.slaveTaskStatusDecorator
          availableHooks frameworkId status st in
      TaskStatus_other status' = TaskStatus_other status
      /\ (is_Some (TaskStatus_labels status) ->
          is_Some (TaskStatus_labels status'))
      /\ (is_Some (TaskStatus_container_status status) ->
          is_Some (TaskStatus_container_status status'))
      /\ shown_to_hooks
           (fun c => exists shown,
                c = slaveTaskStatusDecorator_call frameworkId shown
                /\ TaskStatus_other shown = TaskStatus_other status)
           st st')
  /\ shown_to_hooks
       (fun c => exists shown,
            c = slaveResourcesDecorator_call shown
            /\ SlaveInfo_other shown = SlaveInfo_other slaveInfo
            /\ SlaveInfo_attributes shown = SlaveInfo_attributes slaveInfo)
       st (HookManager.slaveResourcesDecorator availableHooks slaveInfo st).2
  /\ shown_to_hooks
       (fun c => exists shown,
            c = slaveAttributesDecorator_call shown
            /\ SlaveInfo_other shown = SlaveInfo_other slaveInfo
            /\ SlaveInfo_resources shown = SlaveInfo_resources slaveInfo)
       st (HookManager.slaveAttributesDecorator availableHooks slaveInfo st).2.
Proof.
  repeat split.
  - pose proof (loop_keeps (master_label_decoration frameworkInfo slaveInfo)
                  availableHooks
                  (fun shown => TaskInfo_other shown = TaskInfo_other taskInfo)
                  (LinkedHashMap.keys availableHooks)
                  (master_label_sequential _ _)
                  ltac:(by intros) taskInfo st eq_refl) as [_ Hshown].
    unfold HookManager.masterLaunchTaskLabelDecorator, synchronized, bind, ret.
    by destruct (foreach _ _ _ _).
  - pose proof (loop_keeps
                  (agent_label_decoration executorInfo frameworkInfo slaveInfo)
                  availableHooks
                  (fun shown => TaskInfo_other shown = TaskInfo_other taskInfo)
                  (LinkedHashMap.keys availableHooks)
                  (agent_label_sequential _ _ _)
                  ltac:(by intros) taskInfo st eq_refl) as [_ Hshown].
    unfold HookManager.slaveRunTaskLabelDecorator, synchronized, bind, ret.
    by destruct (foreach _ _ _ _).
  - pose proof (loop_keeps environment_decoration availableHooks
                  (fun shown =>
                     ExecutorInfo_other shown = ExecutorInfo_other executorInfo
                     /\ CommandInfo_other (command shown)
                        = CommandInfo_other (command executorInfo))
                  (LinkedHashMap.keys availableHooks)
                  environment_sequential
                  ltac:(by intros) executorInfo st (conj eq_refl eq_refl))
      as [_ Hshown].
    unfold HookManager.slaveExecutorEnvironmentDecorator, synchronized, bind,
      ret.
    by destruct (foreach _ _ _ _).
  - pose proof (loop_keeps (status_decoration frameworkId) availableHooks
                  (fun shown =>
                     TaskStatus_other shown = TaskStatus_other status
                     /\ (is_Some (TaskStatus_labels status) ->
                         is_Some (TaskStatus_labels shown))
                     /\ (is_Some (TaskStatus_container_status status) ->
                         is_Some (TaskStatus_container_status shown)))
                  (LinkedHashMap.keys availableHooks)
                  (status_sequential _)) as Hloop.
    unfold HookManager.slaveTaskStatusDecorator, synchronized, bind, ret.
    simpl in Hloop.
    assert (Hkeeps : forall current r : TaskStatus,
               TaskStatus_other current = TaskStatus_other status
               /\ (is_Some (TaskStatus_labels status) ->
                   is_Some (TaskStatus_labels current))
               /\ (is_Some (TaskStatus_container_status status) ->
                   is_Some (TaskStatus_container_status current)) ->
               TaskStatus_other (overwrite_status current r)
               = TaskStatus_other status
               /\ (is_Some (TaskStatus_labels status) ->
                   is_Some (TaskStatus_labels (overwrite_status current r)))
               /\ (is_Some (TaskStatus_container_status status) ->
                   is_Some (TaskStatus_container_status
                              (overwrite_status current r)))).
    { intros current [other [l|] [c|]] (? & ? & ?); simpl; eauto. }
    specialize (Hloop Hkeeps status st
                  (conj eq_refl (conj (fun some => some) (fun some => some)))).
    destruct Hloop
      as [(Hother & Hlabels & Hcontainer) (added & Hevents & Hshown)].
    destruct (foreach _ _ _ _) as [status' st']. simpl in *.
    repeat split; try assumption.
    exists added. split; [assumption |].
    eapply Forall_impl; [exact Hshown |].
    intros [name c|message]; [| done].
    intros (shown & -> & Hshown' & _). by exists shown.
  - pose proof (loop_keeps resources_decoration availableHooks
                  (fun shown =>
                     SlaveInfo_other shown = SlaveInfo_other slaveInfo
                     /\ SlaveInfo_attributes shown
                        = SlaveInfo_attributes slaveInfo)
                  (LinkedHashMap.keys availableHooks)
                  resources_sequential
                  ltac:(by intros) slaveInfo st (conj eq_refl eq_refl))
      as [_ Hshown].
    unfold HookManager.slaveResourcesDecorator, synchronized, bind, ret.
    by destruct (foreach _ _ _ _).
  - pose proof (loop_keeps attributes_decoration availableHooks
                  (fun shown =>
                     SlaveInfo_other shown = SlaveInfo_other slaveInfo
                     /\ SlaveInfo_resources shown
                        = SlaveInfo_resources slaveInfo)
                  (LinkedHashMap.keys availableHooks)
                  attributes_sequential
                  ltac:(by intros) slaveInfo st (conj eq_refl eq_refl))
      as [_ Hshown].
    unfold HookManager.slaveAttributesDecorator, synchronized, bind, ret.
    by destruct (foreach _ _ _ _).
Qed.

(** Hook modules that never reply with a replacement leave the payload
    of the dispatch as it is. *)
Lemma sequential_dispatch_no_opinion d extensions (current : payload d) st :
  (forall name hook,
      (name, hook) ∈ extensions ->
      forall shown w r, (method d hook shown w).1 <> ResultSome r) ->
  (sequential_dispatch d extensions current st).1 = current.
Proof.
  revert st. induction extensions as [|[name hook] extensions IH];
    intros st Hnone; simpl; [reflexivity |].
  unfold bind, sequential_step. simpl.
  assert (Hhead : (name, hook) ∈ (name, hook) :: extensions) by left.
  pose proof (Hnone name hook Hhead current (world st)) as Hhook.
  destruct (method d hook current (world st)) as [[r| |message] w]; simpl in *.
  - by destruct (Hhook r).
  - apply IH. intros name' hook' Hin. apply (Hnone name' hook'). by right.
  - apply IH. intros name' hook' Hin. apply (Hnone name' hook'). by right.
Qed.

(** X7.  The last hook module that has an opinion decides.  In every
    sequential decorator, when a hook module replies with a replacement
    and no hook module behind it in the registry ever does, the caller
    gets the governed part of the payload with that replacement: what
    the hook modules after it reply, nothing or errors, changes
    nothing, and what the hook modules before it have replied shows
    only where the replacement leaves it.  Field by field: the caller
    gets the replacement itself from the two label decorators and from
    the environment decorator; from the status decorator the labels and
    the container status of the replacement where it sets them, and
    those of the status before the reply where it does not; from the
    resources and the attributes decorators the replacement as it reads
    back from the repeated field of the agent. *)
Theorem last_opinion_decides
    d availableHooks pre name hook post (initial : payload d) st x w :
  sequential_decorator d ->
  NoDup (LinkedHashMap.keys availableHooks) ->
  availableHooks = pre ++ (name, hook) :: post ->
  let (current, st1) := sequential_dispatch d pre initial st in
  method d hook current (world st1) = (ResultSome x, w) ->
  (forall name' hook',
      (name', hook') ∈ post ->
      forall shown w' r, (method d hook' shown w').1 <> ResultSome r) ->
  (run d availableHooks initial st).1 = read d (overwrite d current x)
  /\ replacement_read_back.
Proof.
  intros Hd Hnd ->.
  pose proof (run_is_dispatch d _ Hd Hnd initial st) as Hrun.
  rewrite sequential_dispatch_app in Hrun.
  destruct (sequential_dispatch d pre initial st) as [current st1].
  intros Hcall Hnone. split; [| exact replacement_is_read_back].
  rewrite Hrun. simpl.
  unfold bind, sequential_step. simpl. rewrite Hcall. simpl.
  pose proof (sequential_dispatch_no_opinion d post (overwrite d current x)
                {| world := w;
                   events := events st1 ++ [Invoked name (call d current)] |}
                Hnone) as Hpost.
  destruct (sequential_dispatch d post _ _) as [final st']. simpl in *.
  by subst.
Qed.

(** X8.  If no hook module of the registry ever replies with a
    replacement, every sequential decorator gives the governed part of
    its input back, however many hook modules are loaded and however
    many of them fail. *)
Theorem no_opinion_returns_input d availableHooks (initial : payload d) st :
  sequential_decorator d ->
  (forall name hook,
      LinkedHashMap.get availableHooks name = Some hook ->
      forall shown w r, (method d hook shown w).1 <> ResultSome r) ->
  (run d availableHooks initial st).1 = read d initial.
Proof.
  intros Hd Hnone. rewrite run_is_loop by assumption.
  assert (Hloop : forall names current st0,
             (foreach names (body d availableHooks) current st0).1 = current).
  { induction names as [|name names IH]; intros current st0; simpl;
      [reflexivity |].
    unfold bind.
    destruct (LinkedHashMap.get availableHooks name) as [hook|] eqn:Hget.
    - rewrite (body_is_step d _ name hook) by assumption.
      unfold sequential_step. simpl.
      pose proof (Hnone name hook Hget current (world st0)) as Hhook.
      destruct (method d hook current (world st0)) as [[r| |message] w];
        simpl in *; [by destruct (Hhook r) | apply IH | apply IH].
    - rewrite body_not_found by assumption. apply IH. }
  specialize (Hloop (LinkedHashMap.keys availableHooks) initial st).
  destruct (foreach _ _ _ _) as [final st']. simpl in *. by subst.
Qed.

Lemma tell_all_app n pre post st :
  tell_all n (pre ++ post) st
  = let (_, st') := tell_all n pre st in tell_all n post st'.
Proof.
  revert st. induction pre as [|extension pre IH]; intros st; simpl;
    [reflexivity |].
  unfold bind. destruct (tell_step n extension st) as [[] st1]. apply IH.
Qed.

Lemma invoked_names_complaints n name result :
  invoked_names (complaints n name result) = [].
Proof. by destruct result. Qed.

Lemma tell_all_invoked n extensions st :
  invoked_names (events (tell_all n extensions st).2)
  = invoked_names (events st) ++ LinkedHashMap.keys extensions.
Proof.
  revert st. induction extensions as [|[name hook] extensions IH];
    intros st; simpl.
  - by rewrite app_nil_r.
  - unfold bind, tell_step. simpl.
    destruct (told n hook (world st)) as [result w].
    rewrite IH. simpl. rewrite invoked_names_app. simpl.
    rewrite invoked_names_complaints. by rewrite <- app_assoc.
Qed.

(** Every notification tells the hook modules one after the other. *)
Lemma tell_is_tell_all n availableHooks st :
  notification n ->
  NoDup (LinkedHashMap.keys availableHooks) ->
  tell n availableHooks st = tell_all n availableHooks st.
Proof.
  intros Hn Hnd.
  assert (Hfold : forall extensions st0,
             foreach extensions (fun extension _ => tell_step n extension)
               tt st0
             = tell_all n extensions st0).
  { induction extensions as [|extension extensions IH]; intros st0; simpl;
      [reflexivity |].
    unfold bind. destruct (tell_step n extension st0) as [[] st1]. apply IH. }
  rewrite <- Hfold.
  destruct Hn; cbn [tell agent_lost_notification pre_launch_notification
                         post_fetch_notification remove_executor_notification];
    unfold HookManager.masterSlaveLostHook,
      HookManager.slavePreLaunchDockerHook,
      HookManager.slavePostFetchHook,
      HookManager.slaveRemoveExecutorHook;
    (apply foreach_keys; [assumption |]);
    intros name hook [] st0 Hget;
    unfold HookManager.masterSlaveLostHook_body,
      HookManager.slavePreLaunchDockerHook_body,
      HookManager.slavePostFetchHook_body,
      HookManager.slaveRemoveExecutorHook_body;
    rewrite Hget; unfold tell_step, invoke, bind, LOG_WARNING, ret; cbn;
    match goal with
    | |- _ = (let (_, _) := ?told in _) =>
        destruct told as [[[]|message] w]; cbn
    end;
    rewrite <- ?app_assoc; reflexivity.
Qed.

(** X9.  Every notification (agent lost, before the launch of a
    container, after the fetch, removal of an executor) tells every
    hook module of the registry once, in the insertion order, with the
    arguments of the caller.  A hook module that fails adds a warning
    with its name and its message to the log, and nothing else: the
    hook modules behind it are told all the same, from the world it has
    left. *)
Theorem notifications_tell_every_hook n availableHooks st :
  notification n ->
  NoDup (LinkedHashMap.keys availableHooks) ->
  let (_, st') := tell n availableHooks st in
  invoked_names (events st')
  = invoked_names (events st) ++ LinkedHashMap.keys availableHooks
  /\ shown_to_hooks (fun c => c = notice n) st st'
  /\ (forall pre name hook post,
        availableHooks = pre ++ (name, hook) :: post ->
        let (_, st1) := tell n pre st in
        let (result, w) := told n hook (world st1) in
        st' = (tell n post
                 {| world := w;
                    events := events st1
                              ++ Invoked name (notice n)
                                 :: complaints n name result |}).2).
Proof.
  intros Hn Hnd. rewrite tell_is_tell_all by assumption.
  pose proof (tell_all_invoked n availableHooks st) as Hinvoked.
  assert (Hshown : forall extensions st0,
             shown_to_hooks (fun c => c = notice n) st0
               (tell_all n extensions st0).2).
  { induction extensions as [|[name hook] extensions IH]; intros st0; simpl.
    - exists []. by rewrite app_nil_r.
    - unfold bind, tell_step. simpl.
      destruct (told n hook (world st0)) as [result w].
      destruct (IH {| world := w;
                      events := events st0
                                ++ Invoked name (notice n)
                                   :: complaints n name result |})
        as (added & Hevents & Hforall).
      exists (Invoked name (notice n) :: complaints n name result ++ added).
      split; [rewrite Hevents; simpl; by rewrite <- app_assoc |].
      constructor; [reflexivity |]. apply Forall_app.
      split; [by destruct result; repeat constructor | assumption]. }
  specialize (Hshown availableHooks st).
  destruct (tell_all n availableHooks st) as [[] st'] eqn:Htell.
  simpl in *. split; [assumption |]. split; [assumption |].
  intros pre name hook post Heq. subst availableHooks.
  assert (Hpre : NoDup (LinkedHashMap.keys pre)).
  { unfold LinkedHashMap.keys in Hnd. rewrite map_app in Hnd.
    by apply NoDup_app in Hnd as [? _]. }
  assert (Hpost : NoDup (LinkedHashMap.keys post)).
  { unfold LinkedHashMap.keys in Hnd. rewrite map_app in Hnd.
    apply NoDup_app in Hnd as (_ & _ & Hnd). simpl in Hnd.
    by apply NoDup_cons in Hnd as [_ ?]. }
  rewrite (tell_is_tell_all n pre) by assumption.
  rewrite tell_all_app in Htell.
  destruct (tell_all n pre st) as [[] st1]. simpl in Htell.
  unfold bind, tell_step in Htell. simpl in Htell.
  destruct (told n hook (world st1)) as [result w].
  rewrite (tell_is_tell_all n post) by assumption.
  by rewrite Htell.
Qed.

(** X10.  The decorator of the container environment calls every hook
    module of the registry once, in the insertion order, each one with
    the arguments of the caller, whatever the calls come to: a call
    that fails does not keep the calls behind it from being made, and
    nothing is written to the log. *)
Theorem container_environment_calls_every_hook
    availableHooks taskInfo executorInfo containerName sandboxDirectory
    mappedDirectory env st :
  NoDup (LinkedHashMap.keys availableHooks) ->
  let st' :=
    (HookManager.slavePreLaunchDockerEnvironmentDecorator availableHooks
       taskInfo executorInfo containerName sandboxDirectory mappedDirectory
       env st).2 in
  events st'
  = events st
    ++ map (fun name =>
              Invoked name
                (slavePreLaunchDockerEnvironmentDecorator_call taskInfo
                   executorInfo containerName sandboxDirectory
                   mappedDirectory env))
        (LinkedHashMap.keys availableHooks)
  /\ world st'
     = (fan_out availableHooks taskInfo executorInfo containerName
          sandboxDirectory mappedDirectory env (world st)).2.
Proof.
  intros Hnd.
  unfold HookManager.slavePreLaunchDockerEnvironmentDecorator, bind, ret.
  rewrite fan_out_loop by assumption.
  by destruct (fan_out availableHooks taskInfo executorInfo containerName
                 sandboxDirectory mappedDirectory env (world st)).
Qed.

Lemma bindings_app (results1 results2 : list (option Environment)) :
  bindings (results1 ++ results2) = bindings results1 ++ bindings results2.
Proof. unfold bindings. by rewrite map_app, concat_app. Qed.

Lemma last_binding_elem_of name vars :
  is_Some (last_binding name vars) <-> name ∈ map variable_name vars.
Proof.
  induction vars as [|variable vars IH]; simpl.
  - split; [intros [? ?]; discriminate | intros Hin; inversion Hin].
  - destruct (last_binding name vars) as [v|].
    + split; [intros _; right; apply IH; eauto | eauto].
    + destruct (String.eqb_spec (variable_name variable) name) as [->|Hne].
      * split; [intros _; left | eauto].
      * split; [intros [? ?]; discriminate |].
        intros Hin. inversion Hin; subst; [congruence |].
        by apply IH.
Qed.

(** X11.  How the environments are combined.  The map made of two lists
    of results, one behind the other, is the map of the second list
    laid over the map of the first one, so that later results win name
    by name and earlier ones show through elsewhere.  A name is in the
    map exactly if a result that is present has a variable of that
    name: results that are absent add nothing, and the map starts
    empty, whatever environment the caller has passed to the hook
    modules. *)
Theorem combine_environments_overlays
    (results1 results2 : list (option Environment)) :
  HookManager.combine_environments (results1 ++ results2)
  = HookManager.combine_environments results2
    ∪ HookManager.combine_environments results1
  /\ (forall name,
        is_Some (HookManager.combine_environments results1 !! name)
        <-> name ∈ map variable_name (bindings results1))
  /\ HookManager.combine_environments (None :: results1)
     = HookManager.combine_environments results1.
Proof.
  split; [| split].
  - rewrite !combine_environments_bindings, bindings_app, foldl_app.
    apply map_eq. intros name.
    rewrite lookup_union, !lookup_foldl_insert_variable.
    destruct (last_binding name (bindings results2)) as [v2|];
      destruct (last_binding name (bindings results1)) as [v1|];
      by rewrite ?lookup_empty.
  - intros name. rewrite combine_environments_bindings,
      lookup_foldl_insert_variable, <- last_binding_elem_of.
    destruct (last_binding name (bindings results1));
      by rewrite ?lookup_empty.
  - reflexivity.
Qed.

(** X12.  Loading and unloading decide who is called.  After [unload]
    of a name, a sequential decorator and a notification call the hook
    modules that stay, in the order they had, and never the one that
    was unloaded.  After an [initialize] that succeeds they call the
    hook modules that were there, in their order, and then the new
    ones in the order of the list. *)
Theorem registry_changes_decide_who_is_called
    modules availableHooks d n (initial : payload d) st :
  sequential_decorator d ->
  notification n ->
  NoDup (LinkedHashMap.keys availableHooks) ->
  (forall hookName,
      let availableHooks' :=
        (HookManager.unload hookName availableHooks).2 in
      invoked_names (events (run d availableHooks' initial st).2)
      = invoked_names (events st)
        ++ filter (fun name => name <> hookName)
             (LinkedHashMap.keys availableHooks)
      /\ invoked_names (events (tell n availableHooks' st).2)
         = invoked_names (events st)
           ++ filter (fun name => name <> hookName)
                (LinkedHashMap.keys availableHooks))
  /\ (forall hookList done availableHooks',
        HookManager.initialize modules hookList availableHooks
        = (TrySome done, availableHooks') ->
        invoked_names (events (run d availableHooks' initial st).2)
        = invoked_names (events st)
          ++ LinkedHashMap.keys availableHooks ++ split hookList ","
        /\ invoked_names (events (tell n availableHooks' st).2)
           = invoked_names (events st)
             ++ LinkedHashMap.keys availableHooks ++ split hookList ",").
Proof.
  intros Hd Hn Hnd.
  assert (Hcalled : forall registry',
             NoDup (LinkedHashMap.keys registry') ->
             invoked_names (events (run d registry' initial st).2)
             = invoked_names (events st) ++ LinkedHashMap.keys registry'
             /\ invoked_names (events (tell n registry' st).2)
                = invoked_names (events st) ++ LinkedHashMap.keys registry').
  { intros registry' Hnd'. split.
    - rewrite (run_is_dispatch d) by assumption.
      pose proof (sequential_dispatch_invoked d registry' initial st) as Hinv.
      by destruct (sequential_dispatch d registry' initial st).
    - rewrite tell_is_tell_all by assumption. apply tell_all_invoked. }
  split.
  - intros hookName availableHooks'.
    pose proof (unload_keys_unique hookName availableHooks Hnd) as Hnd'.
    fold availableHooks' in Hnd'.
    destruct (Hcalled availableHooks' Hnd') as [-> ->].
    assert (Hkeys : LinkedHashMap.keys availableHooks'
                    = filter (fun name => name <> hookName)
                        (LinkedHashMap.keys availableHooks)).
    { subst availableHooks'. unfold HookManager.unload.
      destruct (LinkedHashMap.contains availableHooks hookName) eqn:Hloaded;
        simpl; [apply keys_erase |].
      rewrite <- keys_erase. by rewrite erase_absent. }
    by rewrite Hkeys.
  - intros hookList done availableHooks' Hinit.
    pose proof (initialize_keys_unique modules hookList availableHooks Hnd)
      as Hnd'.
    rewrite Hinit in Hnd'. simpl in Hnd'.
    destruct (Hcalled availableHooks' Hnd') as [-> ->].
    assert (Hkeys : LinkedHashMap.keys availableHooks'
                    = LinkedHashMap.keys availableHooks ++ split hookList ",").
    { unfold HookManager.initialize in Hinit.
      pose proof (initialize_loop_outcome modules (split hookList ",")
                    availableHooks) as Hout.
      rewrite Hinit in Hout.
      destruct Hout as (loaded & added & Hloads & -> & _ & _ & <-).
      unfold LinkedHashMap.keys. rewrite map_app.
      fold (LinkedHashMap.keys added). by rewrite (loads_keys _ _ _ Hloads). }
    by rewrite Hkeys.
Qed.

End DispatchMore.

(** * The theorems at concrete hook modules *)

#[local] Existing Instance example_messages.

Ltac unique_keys := apply (bool_decide_unpack _); vm_compute; exact I.

(** [E1] sets X to 1 and [E2] has no opinion: the caller gets X = 1.
    [E1] sets X to 1 and [E2'] sets X to 2: the caller gets X = 2.
    [E6] sets the environment, the resources and the attributes, and
    [E2] has no opinion: the caller gets what [E6] has set. *)
Lemma sequential_decorators_fold_example :
  (HookManager.masterLaunchTaskLabelDecorator
     [("E1", Examples.E1); ("E2", Examples.E2)]
     Examples.task "framework" Examples.agent Examples.start).1
  = [Examples.label "X" "1"]
  /\ (HookManager.masterLaunchTaskLabelDecorator
        [("E1", Examples.E1); ("E2", Examples.E2')]
        Examples.task "framework" Examples.agent Examples.start).1
     = [Examples.label "X" "2"]
  /\ (HookManager.slaveExecutorEnvironmentDecorator
        [("E6", Examples.E6); ("E2", Examples.E2)]
        Examples.executor Examples.start).1
     = {| variables := [Examples.variable "FOO" "1"] |}
  /\ (HookManager.slaveResourcesDecorator
        [("E6", Examples.E6); ("E2", Examples.E2)]
        Examples.agent Examples.start).1
     = ["cpus:8"]
  /\ (HookManager.slaveAttributesDecorator
        [("E6", Examples.E6); ("E2", Examples.E2)]
        Examples.agent Examples.start).1
     = ["rack:2"].
Proof.
  assert (Hnd6 : NoDup (LinkedHashMap.keys
                          [("E6", Examples.E6); ("E2", Examples.E2)]))
    by unique_keys.
  split; [| split; [| split; [| split]]].
  - assert (Hnd : NoDup (LinkedHashMap.keys
                           [("E1", Examples.E1); ("E2", Examples.E2)]))
      by unique_keys.
    pose proof (sequential_decorators_fold_in_registry_order
                  (master_label_decoration "framework" Examples.agent)
                  [("E1", Examples.E1); ("E2", Examples.E2)]
                  Examples.task Examples.start
                  (master_label_sequential _ _) Hnd) as Hthm.
    vm_compute in Hthm.
    destruct Hthm as (_ & _ & _ & HE & _).
    destruct (HE "E1" Examples.E1 "E2" Examples.E2
                [Examples.label "X" "1"] 1 eq_refl eq_refl) as [Hnone _].
    exact (Hnone eq_refl).
  - assert (Hnd : NoDup (LinkedHashMap.keys
                           [("E1", Examples.E1); ("E2", Examples.E2')]))
      by unique_keys.
    pose proof (sequential_decorators_fold_in_registry_order
                  (master_label_decoration "framework" Examples.agent)
                  [("E1", Examples.E1); ("E2", Examples.E2')]
                  Examples.task Examples.start
                  (master_label_sequential _ _) Hnd) as Hthm.
    vm_compute in Hthm.
    destruct Hthm as (_ & _ & _ & HE & _).
    destruct (HE "E1" Examples.E1 "E2" Examples.E2'
                [Examples.label "X" "1"] 1 eq_refl eq_refl) as [_ Hsome].
    exact (Hsome [Examples.label "X" "2"] eq_refl).
  - pose proof (sequential_decorators_fold_in_registry_order
                  environment_decoration
                  [("E6", Examples.E6); ("E2", Examples.E2)]
                  Examples.executor Examples.start
                  environment_sequential Hnd6) as Hthm.
    vm_compute in Hthm.
    destruct Hthm as (_ & _ & _ & HE & _).
    destruct (HE "E6" Examples.E6 "E2" Examples.E2
                {| variables := [Examples.variable "FOO" "1"] |} 1
                eq_refl eq_refl) as [Hnone _].
    exact (Hnone eq_refl).
  - pose proof (sequential_decorators_fold_in_registry_order
                  resources_decoration
                  [("E6", Examples.E6); ("E2", Examples.E2)]
                  Examples.agent Examples.start
                  resources_sequential Hnd6) as Hthm.
    vm_compute in Hthm.
    destruct Hthm as (_ & _ & _ & HE & _).
    destruct (HE "E6" Examples.E6 "E2" Examples.E2 ["cpus:8"] 1
                eq_refl eq_refl) as [Hnone _].
    exact (Hnone eq_refl).
  - pose proof (sequential_decorators_fold_in_registry_order
                  attributes_decoration
                  [("E6", Examples.E6); ("E2", Examples.E2)]
                  Examples.agent Examples.start
                  attributes_sequential Hnd6) as Hthm.
    vm_compute in Hthm.
    destruct Hthm as (_ & _ & _ & HE & _).
    destruct (HE "E6" Examples.E6 "E2" Examples.E2 ["rack:2"] 1
                eq_refl eq_refl) as [Hnone _].
    exact (Hnone eq_refl).
Defined.

(** [E1] sets X to 1, [E3] fails, [E2] has no opinion: the step of
    [E3] gives back the payload it was called with, all three are
    invoked, and the caller gets X = 1. *)
Lemma sequential_decorator_error_example :
  (HookManager.masterLaunchTaskLabelDecorator_body
     [("E1", Examples.E1); ("E3", Examples.E3); ("E2", Examples.E2)]
     "framework" Examples.agent "E3"
     (copy_labels Examples.task [Examples.label "X" "1"])
     {| world := 1;
        events := [Invoked "E1"
                     (masterLaunchTaskLabelDecorator_call
                        Examples.task "framework" Examples.agent)] |}).1
  = copy_labels Examples.task [Examples.label "X" "1"]
  /\ (HookManager.masterLaunchTaskLabelDecorator
        [("E1", Examples.E1); ("E3", Examples.E3); ("E2", Examples.E2)]
        Examples.task "framework" Examples.agent Examples.start).1
     = [Examples.label "X" "1"]
  /\ invoked_names
       (events
          (HookManager.masterLaunchTaskLabelDecorator
             [("E1", Examples.E1); ("E3", Examples.E3); ("E2", Examples.E2)]
             Examples.task "framework" Examples.agent Examples.start).2)
     = ["E1"; "E3"; "E2"].
Proof.
  assert (Hnd : NoDup (LinkedHashMap.keys
                         [("E1", Examples.E1); ("E3", Examples.E3);
                          ("E2", Examples.E2)]))
    by unique_keys.
  pose proof (sequential_decorator_error_leaves_payload
                (master_label_decoration "framework" Examples.agent)
                [("E1", Examples.E1); ("E3", Examples.E3); ("E2", Examples.E2)]
                [("E1", Examples.E1)] "E3" Examples.E3 [("E2", Examples.E2)]
                Examples.task Examples.start "boom" 2
                (master_label_sequential _ _) Hnd eq_refl) as Hthm.
  vm_compute in Hthm.
  destruct (Hthm eq_refl) as (Hbody & Hrun & Hinv).
  split; [exact (f_equal fst Hbody) |].
  split; [exact (f_equal fst Hrun) | exact Hinv].
Defined.

(** [E4] replies with labels only: the container status of the payload
    stays.  [E5] replies with a container status only: the labels of the
    payload stay. *)
Lemma status_decorator_fields_example :
  (HookManager.slaveTaskStatusDecorator_body [("E4", Examples.E4)]
     "framework" "E4" Examples.status Examples.start).1
  = {| TaskStatus_other := "TASK_RUNNING";
       TaskStatus_labels := Some [Examples.label "X" "1"];
       TaskStatus_container_status := Some "container" |}
  /\ (HookManager.slaveTaskStatusDecorator_body [("E5", Examples.E5)]
        "framework" "E5" Examples.status Examples.start).1
     = {| TaskStatus_other := "TASK_RUNNING";
          TaskStatus_labels := Some [Examples.label "X" "0"];
          TaskStatus_container_status := Some "replaced" |}.
Proof.
  pose proof (status_decorator_overwrites_fields_independently
                [("E4", Examples.E4)] "framework" "E4" Examples.E4
                Examples.status
                {| TaskStatus_other := "";
                   TaskStatus_labels := Some [Examples.label "X" "1"];
                   TaskStatus_container_status := None |}
                Examples.start 1 eq_refl eq_refl)
    as (Hother4 & _ & Hcontainer4 & Hlabels4 & _).
  pose proof (status_decorator_overwrites_fields_independently
                [("E5", Examples.E5)] "framework" "E5" Examples.E5
                Examples.status
                {| TaskStatus_other := "";
                   TaskStatus_labels := None;
                   TaskStatus_container_status := Some "replaced" |}
                Examples.start 1 eq_refl eq_refl)
    as (Hother5 & Hlabels5 & _ & _ & Hcontainer5).
  specialize (Hcontainer4 eq_refl). specialize (Hlabels4 _ eq_refl).
  specialize (Hlabels5 eq_refl). specialize (Hcontainer5 _ eq_refl).
  split.
  - destruct (HookManager.slaveTaskStatusDecorator_body _ _ _ _ _).1.
    simpl in *. by subst.
  - destruct (HookManager.slaveTaskStatusDecorator_body _ _ _ _ _).1.
    simpl in *. by subst.
Defined.

(** [E1] gives FOO = 1, [E2] gives nothing, [E2'] gives FOO = 2 and
    BAR = x: the caller gets FOO = 2 and BAR = x. *)
Lemma container_environment_merge_example :
  (fan_out [("E1", Examples.E1); ("E2", Examples.E2); ("E2'", Examples.E2')]
     None Examples.executor "container" "/sandbox" "/mapped" None 0).1
  = map Ready
      [Some {| variables := [Examples.variable "FOO" "1"] |};
       None;
       Some {| variables := [Examples.variable "FOO" "2";
                             Examples.variable "BAR" "x"] |}]
  /\ (HookManager.slavePreLaunchDockerEnvironmentDecorator
        [("E1", Examples.E1); ("E2", Examples.E2); ("E2'", Examples.E2')]
        None Examples.executor "container" "/sandbox" "/mapped" None
        Examples.start).1
     = Ready (<["FOO" := "2"]> (<["BAR" := "x"]> ∅)).
Proof.
  split; [reflexivity |].
  assert (Hnd : NoDup (LinkedHashMap.keys
                         [("E1", Examples.E1); ("E2", Examples.E2);
                          ("E2'", Examples.E2')]))
    by unique_keys.
  pose proof (container_environment_merge_last_wins
                [("E1", Examples.E1); ("E2", Examples.E2); ("E2'", Examples.E2')]
                None Examples.executor "container" "/sandbox" "/mapped" None
                Examples.start
                [Some {| variables := [Examples.variable "FOO" "1"] |};
                 None;
                 Some {| variables := [Examples.variable "FOO" "2";
                                       Examples.variable "BAR" "x"] |}]
                Hnd eq_refl) as Hthm.
  destruct (HookManager.slavePreLaunchDockerEnvironmentDecorator _ _ _ _ _ _ _ _)
    as [outcome st'].
  destruct Hthm as (_ & _ & environment & -> & -> & _).
  vm_compute. reflexivity.
Defined.

(** [E1] gives FOO = 1 and the call of [E3] fails: the caller gets a
    failure. *)
Lemma container_environment_failure_example :
  Failed "boom"
    ∈ (fan_out [("E1", Examples.E1); ("E3", Examples.E3)]
         None Examples.executor "container" "/sandbox" "/mapped" None 0).1
  /\ exists message,
       (HookManager.slavePreLaunchDockerEnvironmentDecorator
          [("E1", Examples.E1); ("E3", Examples.E3)]
          None Examples.executor "container" "/sandbox" "/mapped" None
          Examples.start).1
       = Failed message.
Proof.
  assert (Hin : Failed "boom"
                  ∈ (fan_out [("E1", Examples.E1); ("E3", Examples.E3)]
                       None Examples.executor "container" "/sandbox" "/mapped"
                       None 0).1)
    by (simpl; set_solver).
  split; [exact Hin |].
  assert (Hnd : NoDup (LinkedHashMap.keys
                         [("E1", Examples.E1); ("E3", Examples.E3)]))
    by unique_keys.
  exact (proj1 (container_environment_failure_fails_all
                  [("E1", Examples.E1); ("E3", Examples.E3)]
                  None Examples.executor "container" "/sandbox" "/mapped" None
                  Examples.start "boom" Hnd Hin)).
Defined.

(** The hook module a is loaded; loading it again fails. *)
Lemma loading_a_loaded_name_example :
  LinkedHashMap.contains [("a", Examples.E1)] "a" = true
  /\ HookManager.initialize Examples.modules "a" [("a", Examples.E1)]
     = (TryError "Hook module 'a' already loaded", [("a", Examples.E1)]).
Proof.
  split; [reflexivity |].
  exact (proj1 (proj2 (loading_a_loaded_name_fails Examples.modules
                         [("a", Examples.E1)] "a" eq_refl)
                  (or_introl eq_refl))).
Defined.

(** [initialize] with the empty string fails and loads nothing. *)
Lemma initialize_with_an_empty_name_example :
  ModuleManager.contains Examples.modules "" = false
  /\ HookManager.initialize Examples.modules "" []
     = (TryError "No hook module named '' available", []).
Proof.
  split; [reflexivity |].
  destruct (initialize_with_an_empty_name Examples.modules [] eq_refl)
    as (_ & _ & _ & Hempty).
  exact (Hempty eq_refl "" (or_introl eq_refl)).
Defined.

(** [initialize] with a, bad and c, the hook module bad being unknown:
    a is loaded, bad and c are not, and the error says there is no such
    module. *)
Lemma initialize_a_bad_c :
  HookManager.initialize Examples.modules "a,bad,c" []
  = (TryError "No hook module named 'bad' available", [("a", Examples.E1)]).
Proof.
  exact (proj2 (initialize_stops_at_first_failure Examples.modules "a,bad,c" [])
           "a" "bad" "c" Examples.E1
           eq_refl eq_refl eq_refl eq_refl eq_refl eq_refl
           ltac:(discriminate) eq_refl).
Defined.

(** The claim C5 as it stands fails: with the names a and a, the second
    one fails, and the failing name is loaded after the call. *)
Lemma initialize_failing_name_is_loaded :
  split "a,a" "," = ["a"; "a"]
  /\ (HookManager.initialize Examples.modules "a,a" []).1
     = TryError "Hook module 'a' already loaded"
  /\ LinkedHashMap.contains
       (HookManager.initialize Examples.modules "a,a" []).2 "a"
     = true.
Proof. repeat split. Qed.

(** The claim C10 as it stands fails for a comma at the end: the names
    before the empty one come first.  With a, a and the empty name the
    call fails at the second a, and not for a module that is missing;
    with a and the empty name on an empty registry, a is loaded by the
    call. *)
Lemma initialize_trailing_comma_loads_and_fails_earlier :
  ModuleManager.contains Examples.modules "" = false
  /\ HookManager.initialize Examples.modules "a,a," []
     = (TryError "Hook module 'a' already loaded", [("a", Examples.E1)])
  /\ HookManager.initialize Examples.modules "a," []
     = (TryError "No hook module named '' available", [("a", Examples.E1)]).
Proof. repeat split. Qed.

(** The hook module a is loaded behind c and unloaded again: the
    registry is the one with c alone. *)
Lemma load_then_unload_example :
  HookManager.initialize Examples.modules "a" [("c", Examples.E2)]
  = (TrySome nothing, [("c", Examples.E2); ("a", Examples.E1)])
  /\ HookManager.unload "a" [("c", Examples.E2); ("a", Examples.E1)]
     = (TrySome nothing, [("c", Examples.E2)]).
Proof.
  pose proof (load_then_unload_restores Examples.modules
                [("c", Examples.E2)] "a" Examples.E1
                eq_refl eq_refl eq_refl eq_refl) as Hthm.
  vm_compute in Hthm. destruct Hthm as (_ & _ & Hunload).
  split; [reflexivity | exact Hunload].
Defined.

(** The hook module a stands in front of c; unloaded and loaded again
    it stands behind c. *)
Lemma unload_then_load_example :
  LinkedHashMap.keys
    (HookManager.initialize Examples.modules "a"
       (HookManager.unload "a"
          [("a", Examples.E1); ("c", Examples.E2)]).2).2
  = ["c"; "a"].
Proof.
  pose proof (unload_then_load_goes_last Examples.modules
                [("a", Examples.E1); ("c", Examples.E2)] "a" Examples.E1
                eq_refl eq_refl eq_refl eq_refl) as Hthm.
  vm_compute in Hthm. destruct Hthm as (_ & _ & Hkeys & _).
  exact Hkeys.
Defined.

(** [initialize] with a and c on the empty registry: both are found
    afterwards, in that order. *)
Lemma initialize_success_example :
  HookManager.initialize Examples.modules "a,c" []
  = (TrySome nothing, [("a", Examples.E1); ("c", Examples.E2)])
  /\ LinkedHashMap.keys [("a", Examples.E1); ("c", Examples.E2)]
     = [] ++ split "a,c" ","
  /\ HookManager.hooksAvailable [("a", Examples.E1); ("c", Examples.E2)]
     = true.
Proof.
  assert (Hinit : HookManager.initialize Examples.modules "a,c" []
                  = (TrySome nothing,
                     [("a", Examples.E1); ("c", Examples.E2)]))
    by reflexivity.
  destruct (initialize_success_loads_every_name _ _ _ _ _ Hinit)
    as (_ & Hkeys & Havailable & _).
  split; [exact Hinit |]. split; [exact Hkeys | exact Havailable].
Defined.

(** The hook modules after the deciding one reply nothing or fail. *)
Ltac no_opinion_behind :=
  let Hin := fresh "Hin" in
  let Heq := fresh "Heq" in
  intros ? ? Hin ? ? ?;
  repeat (inversion Hin as [|? ? ? Hin']; subst; clear Hin;
          [intros Heq; vm_compute in Heq; discriminate Heq
          | rename Hin' into Hin]);
  inversion Hin.

(** [E1] sets X to 1, [E2'] sets X to 2, [E3] fails and [E2] has no
    opinion: the caller gets X = 2.  [E6] sets the environment, the
    resources and the attributes of the agent, [E3] and [E2] come behind
    it: the caller gets what [E6] has set. *)
Lemma last_opinion_example :
  (HookManager.masterLaunchTaskLabelDecorator
     [("E1", Examples.E1); ("E2'", Examples.E2'); ("E3", Examples.E3);
      ("E2", Examples.E2)]
     Examples.task "framework" Examples.agent Examples.start).1
  = [Examples.label "X" "2"]
  /\ (HookManager.slaveExecutorEnvironmentDecorator
        [("E1", Examples.E1); ("E6", Examples.E6); ("E3", Examples.E3);
         ("E2", Examples.E2)]
        Examples.executor Examples.start).1
     = {| variables := [Examples.variable "FOO" "1"] |}
  /\ (HookManager.slaveResourcesDecorator
        [("E1", Examples.E1); ("E6", Examples.E6); ("E3", Examples.E3);
         ("E2", Examples.E2)]
        Examples.agent Examples.start).1
     = ["cpus:8"]
  /\ (HookManager.slaveAttributesDecorator
        [("E1", Examples.E1); ("E6", Examples.E6); ("E3", Examples.E3);
         ("E2", Examples.E2)]
        Examples.agent Examples.start).1
     = ["rack:2"].
Proof.
  assert (Hnd : NoDup (LinkedHashMap.keys
                         [("E1", Examples.E1); ("E2'", Examples.E2');
                          ("E3", Examples.E3); ("E2", Examples.E2)]))
    by unique_keys.
  assert (Hnd6 : NoDup (LinkedHashMap.keys
                          [("E1", Examples.E1); ("E6", Examples.E6);
                           ("E3", Examples.E3); ("E2", Examples.E2)]))
    by unique_keys.
  split; [| split; [| split]].
  - pose proof (last_opinion_decides
                  (master_label_decoration "framework" Examples.agent)
                  [("E1", Examples.E1); ("E2'", Examples.E2');
                   ("E3", Examples.E3); ("E2", Examples.E2)]
                  [("E1", Examples.E1)] "E2'" Examples.E2'
                  [("E3", Examples.E3); ("E2", Examples.E2)]
                  Examples.task Examples.start [Examples.label "X" "2"] 2
                  (master_label_sequential _ _) Hnd eq_refl) as Hthm.
    cbn [sequential_dispatch] in Hthm.
    apply (Hthm eq_refl). no_opinion_behind.
  - pose proof (last_opinion_decides
                  environment_decoration
                  [("E1", Examples.E1); ("E6", Examples.E6);
                   ("E3", Examples.E3); ("E2", Examples.E2)]
                  [("E1", Examples.E1)] "E6" Examples.E6
                  [("E3", Examples.E3); ("E2", Examples.E2)]
                  Examples.executor Examples.start
                  {| variables := [Examples.variable "FOO" "1"] |} 2
                  environment_sequential Hnd6 eq_refl) as Hthm.
    cbn [sequential_dispatch] in Hthm.
    apply (Hthm eq_refl). no_opinion_behind.
  - pose proof (last_opinion_decides
                  resources_decoration
                  [("E1", Examples.E1); ("E6", Examples.E6);
                   ("E3", Examples.E3); ("E2", Examples.E2)]
                  [("E1", Examples.E1)] "E6" Examples.E6
                  [("E3", Examples.E3); ("E2", Examples.E2)]
                  Examples.agent Examples.start ["cpus:8"] 2
                  resources_sequential Hnd6 eq_refl) as Hthm.
    cbn [sequential_dispatch] in Hthm.
    apply (Hthm eq_refl). no_opinion_behind.
  - pose proof (last_opinion_decides
                  attributes_decoration
                  [("E1", Examples.E1); ("E6", Examples.E6);
                   ("E3", Examples.E3); ("E2", Examples.E2)]
                  [("E1", Examples.E1)] "E6" Examples.E6
                  [("E3", Examples.E3); ("E2", Examples.E2)]
                  Examples.agent Examples.start ["rack:2"] 2
                  attributes_sequential Hnd6 eq_refl) as Hthm.
    cbn [sequential_dispatch] in Hthm.
    apply (Hthm eq_refl). no_opinion_behind.
Defined.

(** [E2] has no opinion and [E3] fails: the caller gets the labels of
    the task it gave. *)
Lemma no_opinion_example :
  (HookManager.masterLaunchTaskLabelDecorator
     [("E2", Examples.E2); ("E3", Examples.E3)]
     Examples.task "framework" Examples.agent Examples.start).1
  = [Examples.label "X" "0"].
Proof.
  pose proof (no_opinion_returns_input
                (master_label_decoration "framework" Examples.agent)
                [("E2", Examples.E2); ("E3", Examples.E3)]
                Examples.task Examples.start (master_label_sequential _ _))
    as Hthm.
  apply Hthm.
  intros name hook Hget shown w r. cbn [LinkedHashMap.get] in Hget.
  destruct (String.eqb "E2" name);
    [inversion Hget; subst; intros Heq; vm_compute in Heq; discriminate Heq |].
  destruct (String.eqb "E3" name);
    [inversion Hget; subst; intros Heq; vm_compute in Heq; discriminate Heq |].
  discriminate.
Defined.

(** The agent is lost: [E1] and [E3] are told, in that order. *)
Lemma notifications_example :
  invoked_names
    (events
       (HookManager.masterSlaveLostHook
          [("E1", Examples.E1); ("E3", Examples.E3)]
          Examples.agent Examples.start).2)
  = ["E1"; "E3"].
Proof.
  assert (Hnd : NoDup (LinkedHashMap.keys
                         [("E1", Examples.E1); ("E3", Examples.E3)]))
    by unique_keys.
  pose proof (notifications_tell_every_hook
                (agent_lost_notification Examples.agent)
                [("E1", Examples.E1); ("E3", Examples.E3)] Examples.start
                (agent_lost_notified _) Hnd) as Hthm.
  cbn [tell agent_lost_notification] in Hthm.
  destruct (HookManager.masterSlaveLostHook _ _ _) as [[] st'].
  by destruct Hthm as (Hinvoked & _).
Defined.

(** The call of [E3] fails: [E2'], behind it, is called all the same. *)
Lemma container_environment_calls_example :
  invoked_names
    (events
       (HookManager.slavePreLaunchDockerEnvironmentDecorator
          [("E1", Examples.E1); ("E3", Examples.E3); ("E2'", Examples.E2')]
          None Examples.executor "container" "/sandbox" "/mapped" None
          Examples.start).2)
  = ["E1"; "E3"; "E2'"].
Proof.
  assert (Hnd : NoDup (LinkedHashMap.keys
                         [("E1", Examples.E1); ("E3", Examples.E3);
                          ("E2'", Examples.E2')]))
    by unique_keys.
  destruct (container_environment_calls_every_hook
              [("E1", Examples.E1); ("E3", Examples.E3); ("E2'", Examples.E2')]
              None Examples.executor "container" "/sandbox" "/mapped" None
              Examples.start Hnd) as [Hevents _].
  rewrite Hevents. reflexivity.
Defined.

(** [E1] is unloaded: the label decorator calls [E2] alone. *)
Lemma registry_changes_example :
  invoked_names
    (events
       (HookManager.masterLaunchTaskLabelDecorator
          (HookManager.unload "E1"
             [("E1", Examples.E1); ("E2", Examples.E2)]).2
          Examples.task "framework" Examples.agent Examples.start).2)
  = ["E2"].
Proof.
  assert (Hnd : NoDup (LinkedHashMap.keys
                         [("E1", Examples.E1); ("E2", Examples.E2)]))
    by unique_keys.
  pose proof (registry_changes_decide_who_is_called Examples.modules
                [("E1", Examples.E1); ("E2", Examples.E2)]
                (master_label_decoration "framework" Examples.agent)
                (agent_lost_notification Examples.agent)
                Examples.task Examples.start
                (master_label_sequential _ _) (agent_lost_notified _) Hnd)
    as [Hunload _].
  destruct (Hunload "E1") as [Hrun _].
  exact Hrun.
Defined.
